(** * eingpt: a character-level GPT with an incremental key/value cache

    A shallow embedding of [NanoGPTLangugageModel.py] and the proofs of the
    properties its specification states.

    Conventions of the embedding.

    - A Python [str] is the list of its code points ([N]); iterating a string
      yields its characters, and [''.join] of one-character strings is the
      list of those characters.
    - A float is an element of an abstract scalar type (class [Scalar]); the
      algebraic laws that proofs rely on are collected in [ScalarLaws] and are
      assumed only where a theorem says so.
    - A tensor is a nested list.  Every tensor of the source carries a leading
      batch axis [B] over which each operation acts row by row; the embedding
      follows one batch row, so [idx : [B, T]] is a [list nat] of length [T]
      and an activation [[B, T, C]] is a list of [T] vectors.  The source's
      own generation call uses [B = 1].
    - [nn.Linear], [nn.LayerNorm] and [nn.ReLU] act on the last axis, one
      position at a time: a layer is a function on vectors that is mapped
      over the time axis.  Their learned weights are arbitrary.  The width
      of a vector is not checked: the errors the source raises for a channel
      axis of the wrong width are not modelled, the errors for the time axis
      and for indices are.
    - [nn.Dropout] is the identity in the functions of the classes below,
      which are the source in evaluation mode.  The module [WithMode] gives
      the forward pass and the generation loop with the mode as an argument
      and, in training mode, the noise of dropout drawn from the random
      generator; with the mode set to evaluation they are proved equal to
      the functions of the classes.
    - A sum over an axis (a dot product, the denominator of a softmax) adds
      its terms from the last index to the first, whatever the shape of the
      tensor it is part of.
    - A raised exception is a value [Raise e] of the [result] type. *)

From stdpp Require Import base numbers list gmap sorting.

(** ** Exceptions and the [result] monad *)

Inductive exception : Type :=
  | KeyError_stoi (ch : N)          (* stoi[c] for a character not in the dict *)
  | KeyError_itos (i : nat)         (* itos[i] for an id not in the dict *)
  | IndexError_token (i : nat)      (* token_embedding_table(idx), id out of range *)
  | IndexError_position (i : nat)   (* position_embedding_table(...), row out of range *)
  | IndexError_last                 (* logits[:, -1, :] on an empty time axis *)
  | TypeError_zip_None              (* zip(self.blocks, None) *)
  | ValueError_unpack               (* unpacking a 2-tuple into three names *)
  | ValueError_batch_size           (* cross_entropy: input and target sizes differ *)
  | IndexError_target (i : nat)     (* cross_entropy: target is not a class *)
  | RuntimeError_mask_shape         (* masked_fill: mask does not broadcast *)
  | RuntimeError_view.              (* targets.view(B*T): another number of elements *)

Inductive result (A : Type) : Type :=
  | Ok (a : A)
  | Raise (e : exception).
Arguments Ok {A} a.
Arguments Raise {A} e.

Definition bind {A B} (r : result A) (f : A → result B) : result B :=
  match r with
  | Ok a => f a
  | Raise e => Raise e
  end.

Declare Scope result_scope.
Delimit Scope result_scope with result.
Notation "x <- r ;; k" := (bind r (fun x => k))
  (at level 100, r at next level, right associativity) : result_scope.
Open Scope result_scope.

(** A list comprehension whose body may raise: elements are evaluated from
    left to right and the first exception aborts the comprehension. *)
Fixpoint mapM {A B} (f : A → result B) (l : list A) : result (list B) :=
  match l with
  | [] => Ok []
  | x :: l' => y <- f x ;; ys <- mapM f l' ;; Ok (y :: ys)
  end.

(** ** The vocabulary (lines 22-32) *)

Module Vocab.

(** [enumerate(l)] *)
Definition enumerate {A} (l : list A) : list (nat * A) :=
  imap (fun i x => (i, x)) l.

Section vocab.
(** [text = f.read()] *)
Variable text : list N.

(** [chars = sorted(list(set(text)))]: characters compare by code point. *)
Definition chars : list N :=
  merge_sort N.le (elements (list_to_set text : gset N)).

(** [vocab_size = len(chars)] *)
Definition vocab_size : nat := length chars.

(** [stoi = {ch: i for i, ch in enumerate(chars)}]: the comprehension
    inserts the pairs in order, a later pair overwriting an earlier one
    with the same key. *)
Definition stoi : gmap N nat :=
  foldl (fun d p => <[p.2 := p.1]> d) ∅ (enumerate chars).

(** [itos = {i: ch for i, ch in enumerate(chars)}] *)
Definition itos : gmap nat N :=
  foldl (fun d p => <[p.1 := p.2]> d) ∅ (enumerate chars).

(** [encode = lambda s: [stoi[c] for c in s]] *)
Definition encode (s : list N) : result (list nat) :=
  mapM (fun c => match stoi !! c with
                 | Some i => Ok i
                 | None => Raise (KeyError_stoi c)
                 end) s.

(** [decode = lambda l: ''.join([itos[i] for i in l])] *)
Definition decode (l : list nat) : result (list N) :=
  cs <- mapM (fun i => match itos !! i with
                       | Some ch => Ok [ch]
                       | None => Raise (KeyError_itos i)
                       end) l ;;
  Ok (concat cs).
End vocab.

End Vocab.

(** ** Scalars, vectors and tensors *)

(** The float operations the source uses. *)
Class Scalar (R : Type) : Type := {
  rzero : R;                    (* 0.0 *)
  radd : R → R → R;
  rmul : R → R → R;
  rdiv : R → R → R;
  rneg : R → R;
  rexp : R → R;
  rlog : R → R;
  rrelu : R → R;                (* max(0, x) *)
  rof_nat : nat → R;            (* float(n) *)
  rpow_neg_half : nat → R;      (* n ** -0.5 *)
  neg_inf : R;                  (* float('-inf') *)
}.

(** The laws of real arithmetic that the proofs about masking use.  They hold
    for floats on finite values; [0 * x] and [0 / x] are not [0] when [x] is
    a NaN or an infinity. *)
Class ScalarLaws (R : Type) `{Scalar R} : Prop := {
  radd_0_r : ∀ x : R, radd x rzero = x;
  rmul_0_l : ∀ x : R, rmul rzero x = rzero;
  rdiv_0_l : ∀ x : R, rdiv rzero x = rzero;
  rexp_neg_inf : rexp neg_inf = rzero;
}.

(** Hyperparameters (lines 7-17). *)
Definition block_size : nat := 256.
Definition n_embd : nat := 384.
Definition n_head : nat := 6.
Definition n_layer : nat := 6.

Section tensors.
Context {R : Type} `{Scalar R}.

(** Sum of the entries of a vector. *)
Definition rsum (l : list R) : R := foldr radd rzero l.

(** Contraction of two vectors over their common axis. *)
Definition dot (a b : list R) : R := rsum (zip_with rmul a b).

(** [F.softmax(l, dim=-1)] on one row: [exp(l_i) / sum_j exp(l_j)]. *)
Definition softmax (l : list R) : list R :=
  let e := map rexp l in
  let s := rsum e in
  map (fun x => rdiv x s) e.

(** [a + b] on two [[T, C]] tensors of the same shape. *)
Definition tadd (a b : list (list R)) : list (list R) :=
  zip_with (zip_with radd) a b.

(** [t.reshape(B, T, n, h)]: each channel vector is cut into [n] chunks of
    [h] entries. *)
Definition reshape_heads (n h : nat) (x : list (list R)) : list (list (list R)) :=
  map (fun xt => map (fun j => take h (drop (j * h) xt)) (seq 0 n)) x.

(** [torch.transpose(x, 1, 2)] on a tensor whose axis 2 has [n] entries:
    [[B, m, n, h] -> [B, n, m, h]]. *)
Definition transpose12 (n : nat) (x : list (list (list R))) : list (list (list R)) :=
  map (fun j => map (fun row => default [] (row !! j)) x) (seq 0 n).

(** [t.shape[2]] of a [[B, n, K, h]] tensor. *)
Definition dim_time (k : list (list (list R))) : nat := length (default [] (head k)).

(** [t[:, :, -m:, :]]: the last [m] entries along the time axis. *)
Definition slice_last (m : nat) (k : list (list (list R))) : list (list (list R)) :=
  map (fun kh => drop (length kh - m) kh) k.

(** [torch.cat([a, b], dim=2)] *)
Definition cat_time (a b : list (list (list R))) : list (list (list R)) :=
  zip_with app a b.

(** [q @ k.transpose(-2, -1)] on matrices [[Q, h]] and [[K, h]]. *)
Definition matmul_nt (q k : list (list R)) : list (list R) :=
  map (fun qv => map (fun kv => dot qv kv) k) q.

(** [a @ v] on matrices [[Q, K]] and [[K, h]]. *)
Definition matmul (h : nat) (a v : list (list R)) : list (list R) :=
  map (fun row => map (fun c => dot row (map (fun vk => default rzero (vk !! c)) v))
                      (seq 0 h)) a.

(** [torch.einsum('bnqh,bnkh->bnqk', q, k)] *)
Definition einsum_qk (q k : list (list (list R))) : list (list (list R)) :=
  zip_with matmul_nt q k.

(** [torch.einsum('bnqk,bnkh->bnqh', att, v)], the last axis of [v] having
    [h] entries. *)
Definition einsum_av (h : nat) (att v : list (list (list R))) : list (list (list R)) :=
  zip_with (matmul h) att v.

(** [t * s] for a scalar [s], on a matrix and on a stack of matrices. *)
Definition scale2 (s : R) (t : list (list R)) : list (list R) :=
  map (map (fun x => rmul x s)) t.
Definition scale3 (s : R) (t : list (list (list R))) : list (list (list R)) :=
  map (scale2 s) t.

(** [torch.tril(torch.ones(block_size, block_size))]: entry [(i, j)] is one
    when [j <= i] and zero otherwise; [true] stands for one. *)
Definition tril (i j : nat) : bool := bool_decide (j ≤ i).

(** Two axis lengths broadcast when they are equal or one of them is 1. *)
Definition broadcastable (a b : nat) : bool :=
  bool_decide (a = b) || bool_decide (a = 1) || bool_decide (b = 1).

(** The mask [self.tril[..., :T, :T]] has [min T block_size] rows and
    columns; it is broadcast against the last two axes [[Q, K]] of the
    scores. *)
Definition tril_broadcasts (T Q K : nat) : bool :=
  broadcastable (T `min` block_size) Q && broadcastable (T `min` block_size) K.

(** The entries of one [[Q, K]] matrix after
    [masked_fill(self.tril[..., :T, :T] == 0, float('-inf'))]; an axis of
    length 1 of the mask is read at index 0. *)
Definition fill_tril (T : nat) (att : list (list R)) : list (list R) :=
  let ix i := if bool_decide (T `min` block_size = 1) then 0 else i in
  imap (fun qi row =>
    imap (fun ki s => if tril (ix qi) (ix ki) then s else neg_inf) row) att.

(** [wei.masked_fill(self.tril[:T, :T] == 0, float('-inf'))] on [[B, Q, K]] *)
Definition masked_fill2 (T Q K : nat) (att : list (list R)) : result (list (list R)) :=
  if tril_broadcasts T Q K then Ok (fill_tril T att)
  else Raise RuntimeError_mask_shape.

(** [att_wei.masked_fill(self.tril[:, :, :T, :T] == 0, float('-inf'))] on
    [[B, n, Q, K]] *)
Definition masked_fill3 (T Q K : nat) (att : list (list (list R)))
    : result (list (list (list R))) :=
  if tril_broadcasts T Q K then Ok (map (fill_tril T) att)
  else Raise RuntimeError_mask_shape.

(** [self.dropout(x)] in evaluation mode. *)
Definition dropout {A} (x : A) : A := x.

(** [nn.Embedding(num_embeddings, n_embd)]: a table of [num_embeddings]
    rows. *)
Record Embedding : Type := {
  num_embeddings : nat;
  weight : nat → list R;
}.

(** [table(ids)]: a row lookup per id, raising [IndexError] (tagged by
    [err] with the table that raised) for an id that is not a row. *)
Definition Embedding_forward (err : nat → exception) (e : Embedding)
    (ids : list nat) : result (list (list R)) :=
  mapM (fun i => if bool_decide (i < num_embeddings e) then Ok (weight e i)
                 else Raise (err i)) ids.

(** [F.cross_entropy(logits, targets)] on [[N, C]] logits and [[N]] class
    indices: the mean over the rows of [-log(softmax(logits_i)[targets_i])]. *)
Definition cross_entropy (logits : list (list R)) (targets : list nat) : result R :=
  if bool_decide (length logits = length targets) then
    nll <- mapM (fun p => match softmax p.1 !! p.2 with
                          | Some pr => Ok (rneg (rlog pr))
                          | None => Raise (IndexError_target p.2)
                          end) (zip logits targets) ;;
    Ok (rdiv (rsum nll) (rof_nat (length targets)))
  else Raise ValueError_batch_size.
End tensors.
Arguments Embedding R : clear implicits.

(** ** One head of self attention (class [Head], lines 60-96) *)

Module Head.
Section head.
Context {R : Type} `{Scalar R}.

Record t : Type := {
  head_size : nat;
  key : list R → list R;      (* nn.Linear(n_embd, head_size, bias=False) *)
  query : list R → list R;
  value : list R → list R;
}.

(** The scores of line 88, [q @ k.transpose(-2, -1) * (C**-0.5)], where
    [B, T, C = x.shape]. *)
Definition scores (hd : t) (x : list (list R)) : list (list R) :=
  let C := length (default [] (head x)) in
  let k := map (key hd) x in
  let q := map (query hd) x in
  scale2 (rpow_neg_half C) (matmul_nt q k).

Definition forward (hd : t) (x : list (list R)) : result (list (list R)) :=
  let T := length x in
  let wei := scores hd x in
  wei <- masked_fill2 T T T wei ;;
  let wei := map softmax wei in
  let wei := dropout wei in
  let v := map (value hd) x in
  let out := matmul (head_size hd) wei v in
  Ok out.
End head.
Arguments t R : clear implicits.
End Head.

(** ** Multi-head attention (class [MultiHeadAttention], lines 98-151) *)

Module MultiHeadAttention.
Section mha.
Context {R : Type} `{Scalar R}.

Record t : Type := {
  num_heads : nat;
  head_size : nat;
  key : list R → list R;      (* nn.Linear(n_embd, n_embd, bias=False) *)
  query : list R → list R;
  value : list R → list R;
  proj : list R → list R;     (* nn.Linear(n_embd, n_embd) *)
}.

(** A key/value cache: the pair [(k, v)] of [[B, n, K, h]] tensors. *)
Definition kv : Type := (list (list (list R)) * list (list (list R)))%type.

(** Lines 125-129: the projection of [x] split into heads,
    [[B, T, C] -> [B, T, n, h] -> [B, n, T, h]]. *)
Definition heads (m : t) (f : list R → list R) (x : list (list R))
    : list (list (list R)) :=
  transpose12 (num_heads m) (reshape_heads (num_heads m) (head_size m) (map f x)).

(** Lines 130-136: the keys and values the queries attend to, and the
    cache that is returned.  A cache, when present, is a pair and hence
    true. *)
Definition extend (use_cache : bool) (kvcache : option kv)
    (k v : list (list (list R))) : kv * option kv :=
  if use_cache then
    let kv' :=
      match kvcache with
      | Some (prev_k, prev_v) =>
          let prev_k := slice_last (block_size + 1) prev_k in
          let prev_v := slice_last (block_size + 1) prev_v in
          (cat_time prev_k k, cat_time prev_v v)
      | None => (k, v)
      end in
    (kv', Some kv')
  else ((k, v), kvcache).

(** Line 138: the scores before masking. *)
Definition scores (m : t) (q k : list (list (list R))) : list (list (list R)) :=
  scale3 (rpow_neg_half (head_size m)) (einsum_qk q k).

Definition forward (m : t) (x : list (list R)) (use_cache : bool)
    (kvcache : option kv) : result (list (list R) * option kv) :=
  let T := length x in
  let k := heads m (key m) x in
  let v := heads m (value m) x in
  let q := heads m (query m) x in
  let '((k, v), kvcache) := extend use_cache kvcache k v in
  let att_wei := scores m q k in
  att_wei <- masked_fill3 T T (dim_time k) att_wei ;;
  let att_wei := map (map softmax) att_wei in
  let att_wei := dropout att_wei in
  let out := einsum_av (head_size m) att_wei v in
  let out := transpose12 T out in
  let out := map (fun o => concat o) out in
  let out := map (proj m) out in
  let out := dropout out in
  Ok (out, kvcache).
End mha.
Arguments t R : clear implicits.
Arguments kv R : clear implicits.
End MultiHeadAttention.

(** ** Feed-forward (class [FeedForward], lines 153-174) *)

Module FeedForward.
Section ffwd.
Context {R : Type} `{Scalar R}.

Record t : Type := {
  lin1 : list R → list R;     (* nn.Linear(n_embd, 4 * n_embd) *)
  lin2 : list R → list R;     (* nn.Linear(4 * n_embd, n_embd) *)
}.

Definition forward (f : t) (x : list (list R)) : list (list R) :=
  map (fun xt => dropout (lin2 f (map rrelu (lin1 f xt)))) x.
End ffwd.
Arguments t R : clear implicits.
End FeedForward.

(** ** Transformer block (class [Block], lines 176-201) *)

Module Block.
Section block.
Context {R : Type} `{Scalar R}.

Record t : Type := {
  sa_heads : MultiHeadAttention.t R;
  ffwd : FeedForward.t R;
  ln1 : list R → list R;      (* nn.LayerNorm(n_embd) *)
  ln2 : list R → list R;
}.

(** The learned layers of a block. *)
Record weights : Type := {
  w_key : list R → list R;
  w_query : list R → list R;
  w_value : list R → list R;
  w_proj : list R → list R;
  w_lin1 : list R → list R;
  w_lin2 : list R → list R;
  w_ln1 : list R → list R;
  w_ln2 : list R → list R;
}.

(** [Block(n_embd, n_head)] *)
Definition init (n_embd n_head : nat) (w : weights) : t :=
  let head_size := n_embd `div` n_head in
  {| sa_heads := {| MultiHeadAttention.num_heads := n_head;
                    MultiHeadAttention.head_size := head_size;
                    MultiHeadAttention.key := w_key w;
                    MultiHeadAttention.query := w_query w;
                    MultiHeadAttention.value := w_value w;
                    MultiHeadAttention.proj := w_proj w |};
     ffwd := {| FeedForward.lin1 := w_lin1 w; FeedForward.lin2 := w_lin2 w |};
     ln1 := w_ln1 w;
     ln2 := w_ln2 w |}.

Definition forward (b : t) (x : list (list R)) (use_cache : bool)
    (kvcache : option (MultiHeadAttention.kv R))
    : result (list (list R) * option (MultiHeadAttention.kv R)) :=
  r <- MultiHeadAttention.forward (sa_heads b) (map (ln1 b) x) use_cache kvcache ;;
  let heads_out := r.1 in
  let kvcache := r.2 in
  let x := tadd x heads_out in
  let x := tadd x (FeedForward.forward (ffwd b) (map (ln2 b) x)) in
  Ok (x, kvcache).
End block.
Arguments t R : clear implicits.
Arguments weights R : clear implicits.
End Block.

(** ** The language model (class [NanoGPTLanguageModel], lines 203-272) *)

(** [torch.multinomial(probs, num_samples=1)]: one draw from the distribution
    [probs], made with the state [g] of the random generator, which it
    advances. *)
Class Sampler (G R : Type) : Type :=
  multinomial : G → list R → nat * G.

Module NanoGPTLanguageModel.
Section model.
Context {R : Type} `{Scalar R}.

Local Abbreviation kv := (MultiHeadAttention.kv R).

Record t : Type := {
  token_embedding_table : Embedding R;
  position_embedding_table : Embedding R;
  blocks : list (Block.t R);
  ln_f : list R → list R;      (* nn.LayerNorm(n_embd) *)
  lm_head : list R → list R;   (* nn.Linear(n_embd, vocab_size) *)
}.

(** The learned parameters of the model. *)
Record weights : Type := {
  w_tok : nat → list R;
  w_pos : nat → list R;
  w_blocks : nat → Block.weights R;
  w_ln_f : list R → list R;
  w_lm_head : list R → list R;
}.

(** [NanoGPTLanguageModel()], for the vocabulary size of the corpus. *)
Definition init (vocab_size : nat) (w : weights) : t :=
  {| token_embedding_table :=
       {| num_embeddings := vocab_size; weight := w_tok w |};
     position_embedding_table :=
       {| num_embeddings := block_size; weight := w_pos w |};
     blocks := map (fun l => Block.init n_embd n_head (w_blocks w l)) (seq 0 n_layer);
     ln_f := w_ln_f w;
     lm_head := w_lm_head w |}.

(** What [forward] returns: [(logits, loss)], or
    [(logits, loss, new_kvcaches)] when [use_cache] is set.  With one
    batch row the logits [[B, T, C]] and their view [[B*T, C]] are the
    same list of [T] rows. *)
Inductive output : Type :=
  | Out2 (logits : list (list R)) (loss : option R)
  | Out3 (logits : list (list R)) (loss : option R)
         (new_kvcaches : list (option kv)).

(** Line 227: [0 if not blocks_kvcache or not blocks_kvcache[0] else
    blocks_kvcache[0][0].shape[2]]. *)
Definition history_length (blocks_kvcache : option (list (option kv))) : nat :=
  match blocks_kvcache with
  | Some (Some (k, _) :: _) => dim_time k
  | _ => 0
  end.

(** Lines 231-234: the loop over [zip(self.blocks, blocks_kvcache)]. *)
Fixpoint run_blocks (zipped : list (Block.t R * option kv)) (x : list (list R))
    (use_cache : bool) (new_kvcaches : list (option kv))
    : result (list (list R) * list (option kv)) :=
  match zipped with
  | [] => Ok (x, new_kvcaches)
  | (block, kvcache) :: rest =>
      r <- Block.forward block x use_cache kvcache ;;
      run_blocks rest r.1 use_cache (new_kvcaches ++ [r.2])
  end.

Definition forward (M : t) (idx : list nat) (targets : option (list nat))
    (use_cache : bool) (blocks_kvcache : option (list (option kv)))
    : result output :=
  let T := length idx in
  tok_emb <- Embedding_forward IndexError_token (token_embedding_table M) idx ;;
  let history_length := history_length blocks_kvcache in
  pos_emb <- Embedding_forward IndexError_position (position_embedding_table M)
               (map (fun i => i + history_length) (seq 0 T)) ;;
  let x := tadd tok_emb pos_emb in
  caches <- match blocks_kvcache with
            | Some l => Ok l
            | None => Raise TypeError_zip_None
            end ;;
  r <- run_blocks (zip (blocks M) caches) x use_cache [] ;;
  let x := map (ln_f M) r.1 in
  let logits := map (lm_head M) x in
  loss <- match targets with
          | None => Ok None
          | Some targets =>
              (* lines 242-244: [logits.view(B*T, C)], [targets.view(B*T)] *)
              if bool_decide (length targets = length logits)
              then l <- cross_entropy logits targets ;; Ok (Some l)
              else Raise RuntimeError_view
          end ;;
  if use_cache then Ok (Out3 logits loss r.2) else Ok (Out2 logits loss).

Section generate.
Context {G : Type} `{Sampler G R}.

(** Lines 261-271: the body of the generation loop, run [n] times. *)
Fixpoint generate_loop (M : t) (n : nat) (curr_idx idx : list nat)
    (blocks_kvcache : list (option kv)) (g : G) : result (list nat * G) :=
  match n with
  | 0 => Ok (idx, g)
  | S n' =>
      out <- forward M curr_idx None true (Some blocks_kvcache) ;;
      match out with
      | Out3 logits loss blocks_kvcache =>
          logits <- match last logits with
                    | Some l => Ok l
                    | None => Raise IndexError_last
                    end ;;
          let probs := softmax logits in
          let (idx_next, g) := multinomial g probs in
          generate_loop M n' [idx_next] (idx ++ [idx_next]) blocks_kvcache g
      | Out2 _ _ => Raise ValueError_unpack
      end
  end.

(** [generate(idx, max_new_tokens)], started with the generator in
    state [g]; the state it leaves the generator in is returned with
    the sequence. *)
Definition generate (M : t) (idx : list nat) (max_new_tokens : nat) (g : G)
    : result (list nat * G) :=
  generate_loop M max_new_tokens idx idx (replicate n_layer None) g.

(** The reference the specification compares [generate] with: at each
    step a full forward pass, without cache, over the whole sequence
    generated so far, and the same draw from the last position. *)
Fixpoint generate_full_loop (M : t) (n : nat) (idx : list nat) (g : G)
    : result (list nat * G) :=
  match n with
  | 0 => Ok (idx, g)
  | S n' =>
      out <- forward M idx None false (Some (replicate n_layer None)) ;;
      let logits := match out with
                    | Out2 logits _ | Out3 logits _ _ => logits
                    end in
      logits <- match last logits with
                | Some l => Ok l
                | None => Raise IndexError_last
                end ;;
      let probs := softmax logits in
      let (idx_next, g) := multinomial g probs in
      generate_full_loop M n' (idx ++ [idx_next]) g
  end.

Definition generate_full (M : t) (idx : list nat) (max_new_tokens : nat) (g : G)
    : result (list nat * G) :=
  generate_full_loop M max_new_tokens idx g.
End generate.
End model.
Arguments t R : clear implicits.
Arguments weights R : clear implicits.
Arguments output R : clear implicits.
End NanoGPTLanguageModel.

(** ** The function the network computes

    The causal reading of the layers, position by position: what the output
    at a position is in terms of the inputs at that position and before it.
    The theorems below relate [forward] to it, with and without a cache. *)

Section causal.
Context {R : Type} `{Scalar R}.

(** Attention of one query [q] over the keys [kh] and values [vh] of one
    head, with scale [s] and no mask: the softmax of the scaled scores
    weighs the values; [h] is the width of a value. *)
Definition attend (s : R) (h : nat) (q : list R) (kh vh : list (list R)) : list R :=
  map (fun c => dot (softmax (map (fun kv => rmul (dot q kv) s) kh))
                    (map (fun vk => default rzero (vk !! c)) vh))
      (seq 0 h).

(** One head over a whole sequence: the query at position [t] attends to
    positions [0..t]. *)
Definition causal_head (s : R) (h : nat) (qh kh vh : list (list R)) : list (list R) :=
  imap (fun t q => attend s h q (take (S t) kh) (take (S t) vh)) qh.

(** The part of the projection [f] of [xt] that head [j] reads. *)
Definition head_slice (m : MultiHeadAttention.t R) (f : list R → list R)
    (j : nat) (xt : list R) : list R :=
  take (MultiHeadAttention.head_size m) (drop (j * MultiHeadAttention.head_size m) (f xt)).

(** The attention output at the position whose input is [xt], the inputs
    attended to being [xs] (those up to and including [xt]). *)
Definition mha_row (m : MultiHeadAttention.t R) (xs : list (list R)) (xt : list R)
    : list R :=
  MultiHeadAttention.proj m
    (concat (map (fun j =>
       attend (rpow_neg_half (MultiHeadAttention.head_size m))
              (MultiHeadAttention.head_size m)
              (head_slice m (MultiHeadAttention.query m) j xt)
              (map (head_slice m (MultiHeadAttention.key m) j) xs)
              (map (head_slice m (MultiHeadAttention.value m) j) xs))
       (seq 0 (MultiHeadAttention.num_heads m)))).

Definition mha_causal (m : MultiHeadAttention.t R) (x : list (list R))
    : list (list R) :=
  imap (fun t xt => mha_row m (take (S t) x) xt) x.

(** The keys and values of a whole sequence, as the cache holds them. *)
Definition mha_kv (m : MultiHeadAttention.t R) (x : list (list R))
    : MultiHeadAttention.kv R :=
  (MultiHeadAttention.heads m (MultiHeadAttention.key m) x,
   MultiHeadAttention.heads m (MultiHeadAttention.value m) x).

(** A block at one position: [xs] are the block inputs up to and including
    [xt]. *)
Definition block_row (b : Block.t R) (xs : list (list R)) (xt : list R) : list R :=
  let a := mha_row (Block.sa_heads b) (map (Block.ln1 b) xs) (Block.ln1 b xt) in
  let x' := zip_with radd xt a in
  zip_with radd x'
    (FeedForward.lin2 (Block.ffwd b)
       (map rrelu (FeedForward.lin1 (Block.ffwd b) (Block.ln2 b x')))).

Definition block_causal (b : Block.t R) (x : list (list R)) : list (list R) :=
  imap (fun t xt => block_row b (take (S t) x) xt) x.

Definition block_kv (b : Block.t R) (x : list (list R)) : MultiHeadAttention.kv R :=
  mha_kv (Block.sa_heads b) (map (Block.ln1 b) x).

(** The stack of blocks: the output of the last block, and the input of
    each block. *)
Definition hidden (bs : list (Block.t R)) (x : list (list R)) : list (list R) :=
  foldl (fun x b => block_causal b x) x bs.

Fixpoint layer_inputs (bs : list (Block.t R)) (x : list (list R))
    : list (list (list R)) :=
  match bs with
  | [] => []
  | b :: bs' => x :: layer_inputs bs' (block_causal b x)
  end.

(** Token plus position embedding of the sequence [s], positions counted
    from 0. *)
Definition embed (M : NanoGPTLanguageModel.t R) (s : list nat) : list (list R) :=
  tadd (map (weight (NanoGPTLanguageModel.token_embedding_table M)) s)
       (map (weight (NanoGPTLanguageModel.position_embedding_table M))
            (seq 0 (length s))).

(** The logits of the sequence [s], one row per position, and the cache of
    each block once [s] has been read. *)
Definition logits_causal (M : NanoGPTLanguageModel.t R) (s : list nat)
    : list (list R) :=
  map (NanoGPTLanguageModel.lm_head M)
    (map (NanoGPTLanguageModel.ln_f M)
       (hidden (NanoGPTLanguageModel.blocks M) (embed M s))).

(** The caches of a stack of blocks whose inputs so far were [ins], one
    sequence per block. *)
Definition kv_caches (bs : list (Block.t R)) (ins : list (list (list R)))
    : list (option (MultiHeadAttention.kv R)) :=
  zip_with (fun b x => Some (block_kv b x)) bs ins.

Definition caches_causal (M : NanoGPTLanguageModel.t R) (s : list nat)
    : list (option (MultiHeadAttention.kv R)) :=
  kv_caches (NanoGPTLanguageModel.blocks M)
    (layer_inputs (NanoGPTLanguageModel.blocks M) (embed M s)).

(** [blocks_kvcache] holds, for every block, the keys and values of [L]
    positions. *)
Definition cache_state (M : NanoGPTLanguageModel.t R) (L : nat)
    (blocks_kvcache : list (option (MultiHeadAttention.kv R))) : Prop :=
  ∃ ins, blocks_kvcache = kv_caches (NanoGPTLanguageModel.blocks M) ins ∧
         length ins = length (NanoGPTLanguageModel.blocks M) ∧
         Forall (fun x => length x = L) ins.

(** What [__init__] fixes of a model, whatever its weights. *)
Definition constructed (M : NanoGPTLanguageModel.t R) : Prop :=
  length (NanoGPTLanguageModel.blocks M) = n_layer ∧
  Forall (fun b => MultiHeadAttention.num_heads (Block.sa_heads b) = n_head)
         (NanoGPTLanguageModel.blocks M) ∧
  num_embeddings (NanoGPTLanguageModel.position_embedding_table M) = block_size.

(** Token ids that are rows of the token embedding table. *)
Definition in_vocab (M : NanoGPTLanguageModel.t R) (s : list nat) : Prop :=
  Forall (fun i => i < num_embeddings (NanoGPTLanguageModel.token_embedding_table M)) s.

(** The sampler returns a class of the distribution it is given, and the
    output layer has one logit per token id. *)
Definition sampler_in_range {G : Type} `{Sampler G R} : Prop :=
  ∀ (g : G) (probs : list R), probs ≠ [] → (multinomial g probs).1 < length probs.

Definition lm_head_width (M : NanoGPTLanguageModel.t R) : Prop :=
  ∀ v, length (NanoGPTLanguageModel.lm_head M v) =
       num_embeddings (NanoGPTLanguageModel.token_embedding_table M).

(** The runs of the generation loop: [gen_run M n curr_idx idx cache g out g']
    when [n] iterations started with the variables [curr_idx], [idx],
    [blocks_kvcache] and the generator state [g] all succeed and end with
    the sequence [out] and the generator state [g'].  An iteration calls
    [forward] on [curr_idx] with the cache, draws the next token from the
    softmax of the last row of logits, and continues with that token
    alone as [curr_idx]. *)
Inductive gen_run {G : Type} `{Sampler G R} (M : NanoGPTLanguageModel.t R)
    : nat → list nat → list nat → list (option (MultiHeadAttention.kv R)) → G →
      list nat → G → Prop :=
  | gen_run_done curr_idx idx cache g :
      gen_run M 0 curr_idx idx cache g idx g
  | gen_run_step n curr_idx idx cache g logits cache' row idx_next g' out g'' :
      NanoGPTLanguageModel.forward M curr_idx None true (Some cache) =
        Ok (NanoGPTLanguageModel.Out3 logits None cache') →
      last logits = Some row →
      multinomial g (softmax row) = (idx_next, g') →
      gen_run M n [idx_next] (idx ++ [idx_next]) cache' g' out g'' →
      gen_run M (S n) curr_idx idx cache g out g''.
End causal.

(** ** A small concrete model

    Integer scalars, on which the laws of [ScalarLaws] hold, layers that are
    the identity, and a sampler that always draws class 0.  It instantiates
    the general theorems on concrete inputs. *)

Module Toy.
Definition Z_scalar : Scalar Z :=
  {| rzero := 0%Z;
     radd := Z.add;
     rmul := Z.mul;
     rdiv := Z.div;
     rneg := Z.opp;
     rexp := fun z => if bool_decide (z < 0)%Z then 0%Z else (2 ^ z)%Z;
     rlog := Z.log2;
     rrelu := Z.max 0;
     rof_nat := Z.of_nat;
     rpow_neg_half := fun n => (1000 `div` Z.sqrt (Z.of_nat n))%Z;
     neg_inf := (-1)%Z |}.

Definition first_class : Sampler nat Z := fun g probs => (0, S g).

(** The corpus ["abc"]. *)
Definition text : list N := [97; 98; 99]%N.

Definition block_weights : Block.weights Z :=
  {| Block.w_key := id; Block.w_query := id; Block.w_value := id;
     Block.w_proj := id; Block.w_lin1 := id; Block.w_lin2 := id;
     Block.w_ln1 := id; Block.w_ln2 := id |}.

Definition weights : NanoGPTLanguageModel.weights Z :=
  {| NanoGPTLanguageModel.w_tok := fun i => replicate n_embd (Z.of_nat i);
     NanoGPTLanguageModel.w_pos := fun i => replicate n_embd (Z.of_nat i);
     NanoGPTLanguageModel.w_blocks := fun _ => block_weights;
     NanoGPTLanguageModel.w_ln_f := id;
     NanoGPTLanguageModel.w_lm_head := fun _ => replicate (Vocab.vocab_size text) 0%Z |}.

Definition model : NanoGPTLanguageModel.t Z :=
  @NanoGPTLanguageModel.init Z (Vocab.vocab_size text) weights.
End Toy.

(** ** Batches and the sampling script (lines 38-44 and 300-302) *)

Definition batch_size : nat := 64.

(** [torch.randint(high, size=(n,))]: [n] draws made with the state [g] of
    the random generator, which it advances.  The draws are any function of
    the three; that there are [n] of them, all below [high], is the
    hypothesis [randint_in_range] below. *)
Class Randint (G : Type) : Type :=
  randint : G → nat → nat → list nat * G.

Inductive batch_error : Type :=
  | RuntimeError_randint       (* torch.randint with high <= 0 *)
  | RuntimeError_stack.        (* torch.stack of no tensor, or of tensors of different sizes *)

Section batches.
Context {G : Type} `{Randint G}.

Definition randint_in_range : Prop :=
  ∀ (g : G) (high n : nat),
    0 < high →
    length (randint g high n).1 = n ∧ Forall (fun i => i < high) (randint g high n).1.

(** [torch.stack(rows)] on one-dimensional tensors. *)
Definition stack (rows : list (list nat)) : batch_error + list (list nat) :=
  match rows with
  | [] => inl RuntimeError_stack
  | r :: rest =>
      if forallb (fun r' => bool_decide (length r' = length r)) rest
      then inr rows
      else inl RuntimeError_stack
  end.

(** [get_batch(split)]; the globals [train_data] and [val_data] are
    arguments, and the state of the generator is returned with the batch.
    The slice [data[i:i+block_size]] is [take block_size (drop i data)]. *)
Definition get_batch (train_data val_data : list nat) (split : list N) (g : G)
    : batch_error + (list (list nat) * list (list nat) * G) :=
  let data :=
    if bool_decide (split = [116; 114; 97; 105; 110]%N)   (* 'train' *)
    then train_data else val_data in
  if bool_decide (length data ≤ block_size) then inl RuntimeError_randint
  else
    let ixg := randint g (length data - block_size) batch_size in
    match stack (map (fun i => take block_size (drop i data)) ixg.1) with
    | inl e => inl e
    | inr x =>
        match stack (map (fun i => take block_size (drop (i + 1) data)) ixg.1) with
        | inl e => inl e
        | inr y => inr (x, y, ixg.2)
        end
    end.
End batches.

Section script.
Context {R : Type} `{Scalar R} {G : Type} `{Sampler G R}.

(** Lines 300-302: a sample of [block_size] characters from the model [m],
    started with a newline. *)
Definition sample_text (text : list N) (m : NanoGPTLanguageModel.t R) (g : G)
    : result (list N * G) :=
  let start_str := [10]%N in
  idx <- Vocab.encode text start_str ;;
  out <- NanoGPTLanguageModel.generate m idx block_size g ;;
  s <- Vocab.decode text out.1 ;;
  Ok (s, out.2).
End script.

(** A second small model, for a corpus with a newline, and a generator of
    offsets that always draws 0. *)
Module ToyScript.
Definition text : list N := [98; 10; 97]%N.

Definition weights : NanoGPTLanguageModel.weights Z :=
  {| NanoGPTLanguageModel.w_tok := fun i => replicate n_embd (Z.of_nat i);
     NanoGPTLanguageModel.w_pos := fun i => replicate n_embd (Z.of_nat i);
     NanoGPTLanguageModel.w_blocks := fun _ => Toy.block_weights;
     NanoGPTLanguageModel.w_ln_f := id;
     NanoGPTLanguageModel.w_lm_head := fun _ => replicate (Vocab.vocab_size text) 0%Z |}.

Definition model : NanoGPTLanguageModel.t Z :=
  @NanoGPTLanguageModel.init Z (Vocab.vocab_size text) weights.

Definition zero_offsets : Randint nat := fun g high n => (replicate n 0, S g).

Definition data : list nat := seq 0 300.
End ToyScript.

(** ** The state of the generation loop *)

Section generation_state.
Context {R : Type} `{Scalar R} {G : Type} `{Sampler G R}.

(** The variables [curr_idx], [idx] and [blocks_kvcache] of [generate] and
    the state of the generator after [n] iterations of its loop (lines
    261-271), started as given. *)
Fixpoint generate_steps (M : NanoGPTLanguageModel.t R) (n : nat)
    (curr_idx idx : list nat)
    (blocks_kvcache : list (option (MultiHeadAttention.kv R))) (g : G)
    : result (list nat * list nat * list (option (MultiHeadAttention.kv R)) * G) :=
  match n with
  | 0 => Ok (curr_idx, idx, blocks_kvcache, g)
  | S n' =>
      out <- NanoGPTLanguageModel.forward M curr_idx None true (Some blocks_kvcache) ;;
      match out with
      | NanoGPTLanguageModel.Out3 logits loss blocks_kvcache =>
          logits <- match last logits with
                    | Some l => Ok l
                    | None => Raise IndexError_last
                    end ;;
          let probs := softmax logits in
          let (idx_next, g) := multinomial g probs in
          generate_steps M n' [idx_next] (idx ++ [idx_next]) blocks_kvcache g
      | NanoGPTLanguageModel.Out2 _ _ => Raise ValueError_unpack
      end
  end.

(** The cache of one block holds at most [n] time steps: every head of
    its keys and of its values does, and so does the time axis that
    [shape[2]] reads. *)
Definition cache_within (n : nat) (c : option (MultiHeadAttention.kv R)) : Prop :=
  match c with
  | None => True
  | Some (k, v) =>
      dim_time k ≤ n ∧ dim_time v ≤ n ∧
      Forall (fun kh => length kh ≤ n) k ∧ Forall (fun vh => length vh ≤ n) v
  end.
End generation_state.

(** ** Training mode (lines 17, 109, 144, 150, 161)

    A module is in training mode unless [eval()] was called: [nn.Dropout]
    then multiplies every element of its input by a noise that is 0 with
    probability [dropout = 0.2] and [1 / (1 - 0.2) = 1.25] otherwise, drawn
    from the generator that [torch.multinomial] draws from as well.  The
    functions of this module are the forward pass and the generation loop
    with the mode as an argument and the state of the generator threaded
    through; with [training = false] they are the functions above. *)

(** [torch.bernoulli]: [n] draws made with the state [g] of the generator,
    which it advances; [true] stands for an element that is kept. *)
Class Bernoulli (G : Type) : Type :=
  bernoulli : G → nat → list bool * G.

Module WithMode.
Section with_mode.
Context {R : Type} `{Scalar R} {G : Type} `{Sampler G R} `{Bernoulli G}.
Local Abbreviation kv := (MultiHeadAttention.kv R).

(** Rows of the given lengths cut from a flat list. *)
Fixpoint split_rows {A} (lens : list nat) (l : list A) : list (list A) :=
  match lens with
  | [] => []
  | n :: lens' => take n l :: split_rows lens' (drop n l)
  end.

(** [F.dropout(x, p=0.2, training=True)] on the elements of [x]. *)
Definition dropout1 (g : G) (x : list R) : list R * G :=
  let noise := bernoulli g (length x) in
  (zip_with (fun xi (keep : bool) =>
               rmul xi (if keep then rdiv (rof_nat 5) (rof_nat 4) else rzero))
            x noise.1,
   noise.2).

(** [self.dropout(t)] on a tensor of two and of three axes: the noise
    is drawn for all the elements at once, in the order of storage. *)
Definition dropout2 (training : bool) (g : G) (t : list (list R))
    : list (list R) * G :=
  if training then
    let r := dropout1 g (concat t) in
    (split_rows (map length t) r.1, r.2)
  else (t, g).

Definition dropout3 (training : bool) (g : G) (t : list (list (list R)))
    : list (list (list R)) * G :=
  if training then
    let r := dropout1 g (concat (concat t)) in
    (split_rows (map length t) (split_rows (map length (concat t)) r.1), r.2)
  else (t, g).

(** [MultiHeadAttention.forward] (lines 114-151) *)
Definition MultiHeadAttention_forward (training : bool) (m : MultiHeadAttention.t R)
    (x : list (list R)) (use_cache : bool) (kvcache : option kv) (g : G)
    : result (list (list R) * option kv * G) :=
  let T := length x in
  let k := MultiHeadAttention.heads m (MultiHeadAttention.key m) x in
  let v := MultiHeadAttention.heads m (MultiHeadAttention.value m) x in
  let q := MultiHeadAttention.heads m (MultiHeadAttention.query m) x in
  let '((k, v), kvcache) := MultiHeadAttention.extend use_cache kvcache k v in
  let att_wei := MultiHeadAttention.scores m q k in
  att_wei <- masked_fill3 T T (dim_time k) att_wei ;;
  let att_wei := map (map softmax) att_wei in
  let d1 := dropout3 training g att_wei in
  let out := einsum_av (MultiHeadAttention.head_size m) d1.1 v in
  let out := transpose12 T out in
  let out := map (fun o => concat o) out in
  let out := map (MultiHeadAttention.proj m) out in
  let d2 := dropout2 training d1.2 out in
  Ok (d2.1, kvcache, d2.2).

(** [FeedForward.forward] (lines 157-174) *)
Definition FeedForward_forward (training : bool) (f : FeedForward.t R)
    (x : list (list R)) (g : G) : list (list R) * G :=
  dropout2 training g
    (map (fun xt => FeedForward.lin2 f (map rrelu (FeedForward.lin1 f xt))) x).

(** [Block.forward] (lines 187-201) *)
Definition Block_forward (training : bool) (b : Block.t R) (x : list (list R))
    (use_cache : bool) (kvcache : option kv) (g : G)
    : result (list (list R) * option kv * G) :=
  r <- MultiHeadAttention_forward training (Block.sa_heads b)
         (map (Block.ln1 b) x) use_cache kvcache g ;;
  let heads_out := r.1.1 in
  let kvcache := r.1.2 in
  let x := tadd x heads_out in
  let f := FeedForward_forward training (Block.ffwd b) (map (Block.ln2 b) x) r.2 in
  let x := tadd x f.1 in
  Ok (x, kvcache, f.2).

(** [NanoGPTLanguageModel.forward] (lines 212-249) *)
Fixpoint run_blocks (training : bool) (zipped : list (Block.t R * option kv))
    (x : list (list R)) (use_cache : bool) (new_kvcaches : list (option kv)) (g : G)
    : result (list (list R) * list (option kv) * G) :=
  match zipped with
  | [] => Ok (x, new_kvcaches, g)
  | (block, kvcache) :: rest =>
      r <- Block_forward training block x use_cache kvcache g ;;
      run_blocks training rest r.1.1 use_cache (new_kvcaches ++ [r.1.2]) r.2
  end.

Definition forward (training : bool) (M : NanoGPTLanguageModel.t R)
    (idx : list nat) (targets : option (list nat)) (use_cache : bool)
    (blocks_kvcache : option (list (option kv))) (g : G)
    : result (NanoGPTLanguageModel.output R * G) :=
  let T := length idx in
  tok_emb <- Embedding_forward IndexError_token
               (NanoGPTLanguageModel.token_embedding_table M) idx ;;
  let history_length := NanoGPTLanguageModel.history_length blocks_kvcache in
  pos_emb <- Embedding_forward IndexError_position
               (NanoGPTLanguageModel.position_embedding_table M)
               (map (fun i => i + history_length) (seq 0 T)) ;;
  let x := tadd tok_emb pos_emb in
  caches <- match blocks_kvcache with
            | Some l => Ok l
            | None => Raise TypeError_zip_None
            end ;;
  r <- run_blocks training (zip (NanoGPTLanguageModel.blocks M) caches) x
         use_cache [] g ;;
  let x := map (NanoGPTLanguageModel.ln_f M) r.1.1 in
  let logits := map (NanoGPTLanguageModel.lm_head M) x in
  loss <- match targets with
          | None => Ok None
          | Some targets =>
              if bool_decide (length targets = length logits)
              then l <- cross_entropy logits targets ;; Ok (Some l)
              else Raise RuntimeError_view
          end ;;
  if use_cache then Ok (NanoGPTLanguageModel.Out3 logits loss r.1.2, r.2)
  else Ok (NanoGPTLanguageModel.Out2 logits loss, r.2).

(** [NanoGPTLanguageModel.generate] (lines 251-272) *)
Fixpoint generate_loop (training : bool) (M : NanoGPTLanguageModel.t R) (n : nat)
    (curr_idx idx : list nat) (blocks_kvcache : list (option kv)) (g : G)
    : result (list nat * G) :=
  match n with
  | 0 => Ok (idx, g)
  | S n' =>
      out <- forward training M curr_idx None true (Some blocks_kvcache) g ;;
      match out.1 with
      | NanoGPTLanguageModel.Out3 logits loss blocks_kvcache =>
          logits <- match last logits with
                    | Some l => Ok l
                    | None => Raise IndexError_last
                    end ;;
          let probs := softmax logits in
          let (idx_next, g) := multinomial out.2 probs in
          generate_loop training M n' [idx_next] (idx ++ [idx_next]) blocks_kvcache g
      | NanoGPTLanguageModel.Out2 _ _ => Raise ValueError_unpack
      end
  end.

Definition generate (training : bool) (M : NanoGPTLanguageModel.t R)
    (idx : list nat) (max_new_tokens : nat) (g : G) : result (list nat * G) :=
  generate_loop training M max_new_tokens idx idx (replicate n_layer None) g.

(** The reference of the specification: a full pass without cache over
    the whole sequence at every step. *)
Fixpoint generate_full_loop (training : bool) (M : NanoGPTLanguageModel.t R)
    (n : nat) (idx : list nat) (g : G) : result (list nat * G) :=
  match n with
  | 0 => Ok (idx, g)
  | S n' =>
      out <- forward training M idx None false (Some (replicate n_layer None)) g ;;
      let logits := match out.1 with
                    | NanoGPTLanguageModel.Out2 logits _
                    | NanoGPTLanguageModel.Out3 logits _ _ => logits
                    end in
      logits <- match last logits with
                | Some l => Ok l
                | None => Raise IndexError_last
                end ;;
      let probs := softmax logits in
      let (idx_next, g) := multinomial out.2 probs in
      generate_full_loop training M n' (idx ++ [idx_next]) g
  end.

Definition generate_full (training : bool) (M : NanoGPTLanguageModel.t R)
    (idx : list nat) (max_new_tokens : nat) (g : G) : result (list nat * G) :=
  generate_full_loop training M max_new_tokens idx g.
End with_mode.
End WithMode.

(** The logits of what [forward] returns. *)
Definition output_logits {R : Type} (o : NanoGPTLanguageModel.output R)
    : list (list R) :=
  match o with
  | NanoGPTLanguageModel.Out2 logits _ | NanoGPTLanguageModel.Out3 logits _ _ => logits
  end.

(** A model whose layers are constant, a noise that drops every fifth
    element counted from the state of the generator, and a sampler whose
    draw is the state of the generator modulo the number of classes: with
    constant logits every class has the same probability, and the draw
    depends on the generator alone. *)
Module ToyTrain.
Definition counter_noise : Bernoulli nat :=
  fun g n => (map (fun i => negb (Nat.eqb ((g + i) `mod` 5) 0)) (seq 0 n), g + n).

Definition counter_sampler : Sampler nat Z :=
  fun g probs => (g `mod` length probs, S g).

Definition block_weights : Block.weights Z :=
  {| Block.w_key := fun _ => replicate n_embd 0%Z;
     Block.w_query := fun _ => replicate n_embd 0%Z;
     Block.w_value := fun _ => replicate n_embd 0%Z;
     Block.w_proj := fun _ => replicate n_embd 4%Z;
     Block.w_lin1 := fun _ => replicate (4 * n_embd) 0%Z;
     Block.w_lin2 := fun _ => replicate n_embd 0%Z;
     Block.w_ln1 := id; Block.w_ln2 := id |}.

Definition weights : NanoGPTLanguageModel.weights Z :=
  {| NanoGPTLanguageModel.w_tok := fun _ => replicate n_embd 0%Z;
     NanoGPTLanguageModel.w_pos := fun _ => replicate n_embd 0%Z;
     NanoGPTLanguageModel.w_blocks := fun _ => block_weights;
     NanoGPTLanguageModel.w_ln_f := id;
     NanoGPTLanguageModel.w_lm_head := fun _ => replicate 7 0%Z |}.

Definition model : NanoGPTLanguageModel.t Z :=
  @NanoGPTLanguageModel.init Z 7 weights.

(** The same model with an output layer that reads the first seven
    channels, so that the logits show what dropout did. *)
Definition weights_open : NanoGPTLanguageModel.weights Z :=
  {| NanoGPTLanguageModel.w_tok := fun _ => replicate n_embd 0%Z;
     NanoGPTLanguageModel.w_pos := fun _ => replicate n_embd 0%Z;
     NanoGPTLanguageModel.w_blocks := fun _ => block_weights;
     NanoGPTLanguageModel.w_ln_f := id;
     NanoGPTLanguageModel.w_lm_head := take 7 |}.

Definition model_open : NanoGPTLanguageModel.t Z :=
  @NanoGPTLanguageModel.init Z 7 weights_open.
End ToyTrain.

(** * Proofs *)

(** ** The [result] monad *)

Lemma mapM_Ok {A B} (f : A → result B) (g : A → B) (l : list A) :
  (∀ x, x ∈ l → f x = Ok (g x)) → mapM f l = Ok (map g l).
Proof.
  induction l as [|x l IH]; intros Hf; [done|].
  cbn. rewrite Hf by left. cbn. rewrite IH; [done|].
  intros y Hy. apply Hf. by right.
Qed.

Lemma mapM_Raise {A B} (f : A → result B) (l1 l2 : list A) (x : A) (e : exception) :
  (∀ y, y ∈ l1 → ∃ b, f y = Ok b) → f x = Raise e →
  mapM f (l1 ++ x :: l2) = Raise e.
Proof.
  intros Hok Hx. induction l1 as [|y l1 IH]; cbn.
  - by rewrite Hx.
  - destruct (Hok y) as [b ->]; [by left|]. cbn.
    rewrite IH; [done|]. intros z Hz. apply Hok. by right.
Qed.

Lemma mapM_length {A B} (f : A → result B) (l : list A) (l' : list B) :
  mapM f l = Ok l' → length l' = length l.
Proof.
  revert l'. induction l as [|x l IH]; intros l'; cbn.
  - by intros [= <-].
  - destruct (f x); cbn; [|done]. destruct (mapM f l); cbn; [|done].
    intros [= <-]. cbn. f_equal. by apply IH.
Qed.

(** ** The vocabulary *)

Section vocab_facts.
Variable text : list N.

Lemma elem_of_chars (c : N) : c ∈ Vocab.chars text ↔ c ∈ text.
Proof.
  unfold Vocab.chars. rewrite merge_sort_Permutation.
  rewrite elem_of_elements. apply elem_of_list_to_set.
Qed.

Lemma NoDup_chars : NoDup (Vocab.chars text).
Proof.
  unfold Vocab.chars. rewrite merge_sort_Permutation. apply NoDup_elements.
Qed.

Lemma enumerate_lookup {A} (l : list A) (i : nat) :
  Vocab.enumerate l !! i = (fun x => (i, x)) <$> l !! i.
Proof. unfold Vocab.enumerate. apply list_lookup_imap. Qed.

Lemma elem_of_enumerate {A} (l : list A) (i : nat) (x : A) :
  (i, x) ∈ Vocab.enumerate l ↔ l !! i = Some x.
Proof.
  rewrite list_elem_of_lookup. split.
  - intros [j Hj]. rewrite enumerate_lookup in Hj.
    destruct (l !! j) eqn:E; simplify_eq/=. done.
  - intros Hi. exists i. rewrite enumerate_lookup, Hi. done.
Qed.

(** Reading a dict built by a comprehension whose keys are distinct. *)
Lemma dict_comprehension_lookup {K V} `{Countable K} {A}
    (key : A → K) (val : A → V) (l : list A) (d : gmap K V) (k : K) (v : V) :
  NoDup (key <$> l) →
  foldl (fun d p => <[key p := val p]> d) d l !! k = Some v ↔
  (∃ p, p ∈ l ∧ key p = k ∧ val p = v) ∨ ((k ∉ key <$> l) ∧ d !! k = Some v).
Proof.
  revert d. induction l as [|p l IH]; intros d Hnd; cbn.
  - split; [intros ?; right; split; [apply not_elem_of_nil|done]|].
    intros [(p & Hp & _)|[_ ?]]; [by apply elem_of_nil in Hp|done].
  - apply NoDup_cons in Hnd as [Hp Hnd]. rewrite IH by done. split.
    + intros [(q & Hq & ? & ?)|[Hk Hd]].
      * left. exists q. split; [by right|done].
      * destruct (decide (key p = k)) as [<-|Hne].
        -- rewrite lookup_insert_eq in Hd. simplify_eq.
           left. exists p. split; [by left|done].
        -- rewrite lookup_insert_ne in Hd by done. right. split; [|done].
           rewrite not_elem_of_cons. done.
    + intros [(q & Hq & Hqk & Hqv)|[Hk Hd]].
      * apply elem_of_cons in Hq as [->|Hq].
        -- right. subst. split; [done|]. by rewrite lookup_insert_eq.
        -- left. by exists q.
      * apply not_elem_of_cons in Hk as [Hne Hk]. right. split; [done|].
        by rewrite lookup_insert_ne.
Qed.

Lemma enumerate_fst {A} (l : list A) : (Vocab.enumerate l).*1 = seq 0 (length l).
Proof.
  apply list_eq. intros i. rewrite list_lookup_fmap, enumerate_lookup.
  destruct (l !! i) eqn:E; cbn.
  - symmetry. apply lookup_seq. split; [done|]. by eapply lookup_lt_Some.
  - symmetry. apply lookup_seq_ge. by apply lookup_ge_None.
Qed.

Lemma enumerate_snd {A} (l : list A) : (Vocab.enumerate l).*2 = l.
Proof.
  apply list_eq. intros i. rewrite list_lookup_fmap, enumerate_lookup.
  by destruct (l !! i).
Qed.

Lemma stoi_lookup (c : N) (i : nat) :
  Vocab.stoi text !! c = Some i ↔ Vocab.chars text !! i = Some c.
Proof.
  unfold Vocab.stoi.
  rewrite (dict_comprehension_lookup snd fst).
  - rewrite lookup_empty. split.
    + intros [([j d] & Hp & ? & ?)|[_ ?]]; [|done]. simplify_eq/=.
      by apply elem_of_enumerate.
    + intros Hi. left. exists (i, c). by rewrite elem_of_enumerate.
  - rewrite enumerate_snd. apply NoDup_chars.
Qed.

Lemma itos_lookup (i : nat) : Vocab.itos text !! i = Vocab.chars text !! i.
Proof.
  apply option_eq. intros c. unfold Vocab.itos.
  rewrite (dict_comprehension_lookup fst snd).
  - rewrite lookup_empty. split.
    + intros [([j d] & Hp & ? & ?)|[_ ?]]; [|done]. simplify_eq/=.
      by apply elem_of_enumerate.
    + intros Hi. left. exists (i, c). by rewrite elem_of_enumerate.
  - rewrite enumerate_fst. apply NoDup_seq.
Qed.

Lemma stoi_is_Some (c : N) : is_Some (Vocab.stoi text !! c) ↔ c ∈ text.
Proof.
  rewrite <- elem_of_chars, list_elem_of_lookup. unfold is_Some.
  by setoid_rewrite stoi_lookup.
Qed.

(** Ids are dense: the dict sends the characters onto [0 .. vocab_size-1]. *)
Lemma stoi_lt (c : N) (i : nat) :
  Vocab.stoi text !! c = Some i → i < Vocab.vocab_size text.
Proof. rewrite stoi_lookup. apply lookup_lt_Some. Qed.
End vocab_facts.

(** C5. Round trip: for every string [s] made only of characters of the
    training corpus [text], [decode(encode(s))] returns [s]. *)
Theorem decode_encode (text s : list N) :
  (∀ c, c ∈ s → c ∈ text) →
  (l <- Vocab.encode text s ;; Vocab.decode text l) = Ok s.
Proof.
  intros Hs.
  assert (∀ c, c ∈ s → ∃ i, Vocab.stoi text !! c = Some i) as Hi.
  { intros c Hc. by apply stoi_is_Some, Hs. }
  induction s as [|c s IH]; [done|].
  destruct (Hi c) as [i Hci]; [by left|].
  unfold Vocab.encode, Vocab.decode in *. cbn. rewrite Hci. cbn.
  destruct (mapM _ s) as [l|e] eqn:El; cbn in *.
  - apply stoi_lookup in Hci. rewrite itos_lookup, Hci. cbn.
    destruct (mapM _ l) as [cs|e] eqn:Ecs; cbn in *.
    + f_equal. f_equal.
      assert (Ok (concat cs) = Ok s) as [= ->]; [|done].
      apply IH; intros; [apply Hs|apply Hi]; by right.
    + exfalso. assert (@Raise (list N) e = Ok s); [|done].
      apply IH; intros; [apply Hs|apply Hi]; by right.
  - exfalso. assert (@Raise (list N) e = Ok s); [|done].
    apply IH; intros; [apply Hs|apply Hi]; by right.
Qed.

Lemma decode_encode_witness :
  (l <- Vocab.encode [104; 105; 33]%N [105; 104; 104]%N ;;
   Vocab.decode [104; 105; 33]%N l) = Ok [105; 104; 104]%N.
Proof.
  apply (decode_encode [104; 105; 33]%N [105; 104; 104]%N).
  intros c Hc. rewrite !elem_of_cons, elem_of_nil in Hc.
  rewrite !elem_of_cons. destruct Hc as [->|[->|[->|[]]]]; auto.
Defined.

(** C6. Vocabulary miss: when a string contains a character that is absent
    from the corpus, [encode] raises [KeyError] at the first such character;
    no list of ids is returned. *)
Theorem encode_unseen_raises (text s : list N) :
  (∃ c, c ∈ s ∧ (c ∉ text)) →
  ∃ c, c ∈ s ∧ (c ∉ text) ∧ Vocab.encode text s = Raise (KeyError_stoi c).
Proof.
  intros (c0 & Hc0 & Hn0). induction s as [|c s IH].
  - by apply elem_of_nil in Hc0.
  - unfold Vocab.encode in *. cbn.
    destruct (Vocab.stoi text !! c) as [i|] eqn:Ei; cbn.
    + assert (c ∈ text) by (apply stoi_is_Some; eauto).
      apply elem_of_cons in Hc0 as [->|Hc0]; [done|].
      destruct (IH Hc0) as (c' & ? & ? & ->). exists c'. split; [by right|done].
    + exists c. split; [by left|]. split; [|done].
      rewrite <- stoi_is_Some, Ei. by intros [? ?].
Qed.

Lemma encode_unseen_raises_witness :
  ∃ c, c ∈ [104; 63]%N ∧ (c ∉ [104; 105]%N) ∧
       Vocab.encode [104; 105]%N [104; 63]%N = Raise (KeyError_stoi c).
Proof.
  apply (encode_unseen_raises [104; 105]%N [104; 63]%N).
  exists 63%N. rewrite !elem_of_cons, !elem_of_nil. split; [auto|].
  intros [?|[?|[]]]; discriminate.
Defined.

(** ** Masked attention rows *)

#[global] Arguments rsum : simpl never.
#[global] Arguments dot : simpl never.
#[global] Arguments softmax : simpl never.
#[global] Arguments attend : simpl never.

Lemma block_size_pos : 1 `min` block_size = 1.
Proof. reflexivity. Qed.

Lemma block_size_ne_1 : block_size ≠ 1.
Proof. discriminate. Qed.

Section attention_rows.
Context {R : Type} `{ScalarLaws R}.

Lemma rsum_zeros (z : list R) : Forall (eq rzero) z → rsum z = rzero.
Proof.
  induction 1 as [|x z <- _ IH]; [done|].
  unfold rsum in *. cbn. rewrite IH. apply radd_0_r.
Qed.

Lemma rsum_app_zeros (a z : list R) :
  Forall (eq rzero) z → rsum (a ++ z) = rsum a.
Proof.
  intros Hz. induction a as [|x a IH].
  - by apply rsum_zeros.
  - unfold rsum in *. cbn. by rewrite IH.
Qed.

Lemma softmax_app_neg_inf (a : list R) (k : nat) :
  softmax (a ++ replicate k neg_inf) = softmax a ++ replicate k rzero.
Proof.
  unfold softmax.
  rewrite map_app.
  replace (map rexp (replicate k neg_inf)) with (replicate k (rzero : R)).
  2:{ induction k; cbn; [done|]. by rewrite rexp_neg_inf, <- IHk. }
  rewrite rsum_app_zeros by (apply Forall_replicate; done).
  rewrite map_app. f_equal.
  induction k; cbn; [done|]. by rewrite rdiv_0_l, IHk.
Qed.

Lemma dot_app_zeros (w col : list R) (k : nat) :
  dot (w ++ replicate k rzero) col = dot w (take (length w) col).
Proof.
  unfold dot. revert col. induction w as [|x w IH]; intros col.
  - cbn. rewrite (rsum_zeros (zip_with _ _ _)); [done|].
    revert col. induction k; intros [|c col]; cbn; try constructor.
    + by rewrite rmul_0_l.
    + apply IHk.
  - destruct col as [|c col]; [done|].
    unfold rsum in *. cbn. by rewrite IH.
Qed.

Lemma mask_row_split (t : nat) (l : list R) :
  imap (fun ki sc => if tril t ki then sc else neg_inf) l =
  take (S t) l ++ replicate (length l - S t) neg_inf.
Proof.
  apply list_eq. intros i. rewrite list_lookup_imap. unfold tril.
  destruct (l !! i) as [x|] eqn:E; cbn.
  - apply lookup_lt_Some in E as Hi. case_bool_decide.
    + rewrite lookup_app_l by (rewrite length_take; lia).
      rewrite lookup_take_lt by lia. done.
    + rewrite lookup_app_r by (rewrite length_take; lia).
      rewrite length_take. symmetry. apply lookup_replicate_2. lia.
  - apply lookup_ge_None in E. symmetry. apply lookup_ge_None.
    rewrite length_app, length_take, length_replicate. lia.
Qed.

(** Row [t] of the mask of a full pass over [T <= block_size] positions. *)
Lemma fill_row (T t : nat) (l : list R) :
  T ≤ block_size → length l = T → t < T →
  imap (fun ki sc =>
          if tril (if bool_decide (T `min` block_size = 1) then 0 else t)
                  (if bool_decide (T `min` block_size = 1) then 0 else ki)
          then sc else neg_inf) l =
  take (S t) l ++ replicate (length l - S t) neg_inf.
Proof.
  intros HT Hl Ht. rewrite Nat.min_l by done. case_bool_decide as H1.
  - assert (t = 0) as -> by lia.
    rewrite take_ge by lia. replace (length l - 1) with 0 by lia.
    cbn. rewrite app_nil_r.
    apply list_eq. intros i. rewrite list_lookup_imap. by destruct (l !! i).
  - apply mask_row_split.
Qed.

Lemma masked_attend_row (T t : nat) (s : R) (h : nat) (q : list R)
    (kh vh : list (list R)) :
  T ≤ block_size → length kh = T → t < T →
  map (fun c =>
    dot (softmax (imap (fun ki sc =>
            if tril (if bool_decide (T `min` block_size = 1) then 0 else t)
                    (if bool_decide (T `min` block_size = 1) then 0 else ki)
            then sc else neg_inf)
          (map (fun kv => rmul (dot q kv) s) kh)))
        (map (fun vk => default rzero (vk !! c)) vh)) (seq 0 h) =
  attend s h q (take (S t) kh) (take (S t) vh).
Proof.
  intros HT Hk Ht. unfold attend. apply map_ext. intros c.
  rewrite (fill_row T) by (rewrite ?length_map; done).
  rewrite softmax_app_neg_inf, dot_app_zeros.
  rewrite <- !fmap_take. f_equal. f_equal.
  unfold softmax. rewrite !length_map, length_take, Hk.
  by rewrite Nat.min_l by lia.
Qed.

(** A full pass of one head is causal attention. *)
Lemma attention_head_causal (T : nat) (s : R) (h : nat) (qh kh vh : list (list R)) :
  T ≤ block_size → length qh = T → length kh = T →
  matmul h (map softmax (fill_tril T (scale2 s (matmul_nt qh kh)))) vh =
  causal_head s h qh kh vh.
Proof.
  intros HT Hq Hk. unfold matmul, fill_tril, scale2, matmul_nt, causal_head.
  apply list_eq. intros t.
  rewrite !list_lookup_fmap, !list_lookup_imap, !list_lookup_fmap.
  destruct (qh !! t) as [q|] eqn:E; cbn; [|done]. f_equal.
  apply lookup_lt_Some in E. rewrite map_map.
  apply (masked_attend_row T); lia.
Qed.
End attention_rows.

Section attention_step.
Context {R : Type} `{Scalar R}.

(** With a single query the mask has one entry, which is set: the query
    attends to every key it is given. *)
Lemma attention_head_step (s : R) (h : nat) (q : list R) (kh vh : list (list R)) :
  matmul h (map softmax (fill_tril 1 (scale2 s (matmul_nt [q] kh)))) vh =
  [attend s h q kh vh].
Proof.
  unfold matmul, fill_tril, scale2, matmul_nt, attend. cbn [map imap].
  rewrite block_size_pos. rewrite bool_decide_eq_true_2 by done.
  cbn. f_equal. apply map_ext. intros c. f_equal. f_equal.
  rewrite map_map.
  apply list_eq. intros i. rewrite list_lookup_imap.
  by destruct (_ !! i).
Qed.
End attention_step.

(** ** Multi-head attention, with and without cache *)

Section mha_facts.
Context {R : Type} `{Scalar R}.
Implicit Types (m : MultiHeadAttention.t R) (x xs : list (list R)).

Lemma heads_eq m (f : list R → list R) x :
  MultiHeadAttention.heads m f x =
  map (fun j => map (head_slice m f j) x) (seq 0 (MultiHeadAttention.num_heads m)).
Proof.
  unfold MultiHeadAttention.heads, transpose12, reshape_heads, head_slice.
  apply map_ext_in. intros j Hj. apply in_seq in Hj.
  rewrite !map_map. apply map_ext. intros xt.
  rewrite list_lookup_fmap, lookup_seq_lt by lia. done.
Qed.

Lemma dim_time_heads m (f : list R → list R) x :
  0 < MultiHeadAttention.num_heads m →
  dim_time (MultiHeadAttention.heads m f x) = length x.
Proof.
  intros Hn. rewrite heads_eq. unfold dim_time.
  destruct (MultiHeadAttention.num_heads m) as [|n]; [lia|].
  cbn. by rewrite length_map.
Qed.

Lemma heads_app m (f : list R → list R) x y :
  MultiHeadAttention.heads m f (x ++ y) =
  cat_time (MultiHeadAttention.heads m f x) (MultiHeadAttention.heads m f y).
Proof.
  rewrite !heads_eq. unfold cat_time.
  induction (seq 0 (MultiHeadAttention.num_heads m)) as [|j js IH]; [done|].
  cbn. rewrite map_app. f_equal. apply IH.
Qed.

Lemma slice_last_heads m (f : list R → list R) x :
  length x ≤ block_size + 1 →
  slice_last (block_size + 1) (MultiHeadAttention.heads m f x) =
  MultiHeadAttention.heads m f x.
Proof.
  intros Hx. rewrite heads_eq. unfold slice_last. rewrite map_map.
  apply map_ext. intros j. rewrite length_map.
  replace (length x - (block_size + 1)) with 0 by lia. done.
Qed.

(** The attention of all heads, head by head. *)
Lemma heads_attention (T : nat) (s : R) (h : nat)
    (Q K V : nat → list (list R)) (js : list nat) :
  einsum_av h
    (map (map softmax) (map (fill_tril T) (scale3 s (einsum_qk (map Q js) (map K js)))))
    (map V js) =
  map (fun j => matmul h (map softmax (fill_tril T (scale2 s (matmul_nt (Q j) (K j)))))
                       (V j)) js.
Proof.
  unfold einsum_av, scale3, einsum_qk.
  induction js as [|j js IH]; [done|]. cbn. f_equal. apply IH.
Qed.

Lemma tril_broadcasts_full (T : nat) :
  T ≤ block_size → tril_broadcasts T T T = true.
Proof.
  intros HT. unfold tril_broadcasts, broadcastable.
  rewrite Nat.min_l by done. by rewrite bool_decide_eq_true_2.
Qed.

Lemma tril_broadcasts_long (T : nat) :
  block_size < T → tril_broadcasts T T T = false.
Proof.
  intros HT. unfold tril_broadcasts, broadcastable.
  rewrite Nat.min_r by lia.
  rewrite (bool_decide_eq_false_2 (block_size = T)) by lia.
  rewrite (bool_decide_eq_false_2 (block_size = 1)) by apply block_size_ne_1.
  rewrite (bool_decide_eq_false_2 (T = 1)); [done|].
  pose proof block_size_pos. lia.
Qed.

Lemma tril_broadcasts_step (K : nat) : tril_broadcasts 1 1 K = true.
Proof.
  unfold tril_broadcasts, broadcastable. rewrite block_size_pos.
  rewrite (bool_decide_eq_true_2 (1 = 1)) by done.
  by destruct (bool_decide (1 = K)).
Qed.

(** Without mask failure, the output of a pass with no cache in terms of
    the per-head outputs. *)
Lemma merge_heads (T : nat) (f : nat → list (list R)) (js : list nat)
    (p : list R → list R) :
  map p (map (fun o => concat o) (transpose12 T (map f js))) =
  map (fun t => p (concat (map (fun j => default [] (f j !! t)) js))) (seq 0 T).
Proof.
  unfold transpose12. rewrite !map_map. apply map_ext. intros t.
  by rewrite map_map.
Qed.
End mha_facts.

Section mha_forward.
Context {R : Type} `{ScalarLaws R}.
Implicit Types (m : MultiHeadAttention.t R) (x xs : list (list R)).

(** A pass without cache computes causal attention and, when asked to,
    returns the keys and values of the sequence. *)
Lemma mha_forward_full m x (use_cache : bool) :
  0 < MultiHeadAttention.num_heads m → length x ≤ block_size →
  MultiHeadAttention.forward m x use_cache None =
  Ok (mha_causal m x, if use_cache then Some (mha_kv m x) else None).
Proof.
  intros Hn Hx. unfold MultiHeadAttention.forward.
  assert (MultiHeadAttention.extend use_cache None
            (MultiHeadAttention.heads m (MultiHeadAttention.key m) x)
            (MultiHeadAttention.heads m (MultiHeadAttention.value m) x) =
          (mha_kv m x, if use_cache then Some (mha_kv m x) else None)) as ->.
  { unfold MultiHeadAttention.extend, mha_kv. by destruct use_cache. }
  unfold mha_kv. rewrite dim_time_heads by done.
  unfold masked_fill3. rewrite tril_broadcasts_full by done.
  cbn [bind]. unfold dropout. f_equal. f_equal.
  unfold MultiHeadAttention.scores. rewrite !heads_eq.
  rewrite heads_attention, merge_heads. unfold mha_causal.
  apply list_eq. intros t. rewrite list_lookup_fmap, list_lookup_imap.
  destruct (x !! t) as [xt|] eqn:E.
  - apply lookup_lt_Some in E as Ht. rewrite lookup_seq_lt by done.
    cbn [fmap option_fmap option_map]. f_equal. unfold mha_row. f_equal. f_equal.
    apply map_ext. intros j.
    rewrite (attention_head_causal (length x)) by (rewrite ?length_map; done).
    unfold causal_head. rewrite list_lookup_imap, list_lookup_fmap.
    change (0 + t) with t. rewrite E.
    cbn [fmap option_fmap option_map default]. by rewrite <- !fmap_take.
  - apply lookup_ge_None in E. rewrite lookup_seq_ge by done. done.
Qed.
End mha_forward.

Section mha_step.
Context {R : Type} `{Scalar R}.
Implicit Types (m : MultiHeadAttention.t R) (x xs : list (list R)).

Lemma mha_forward_long m x (use_cache : bool) :
  0 < MultiHeadAttention.num_heads m → block_size < length x →
  MultiHeadAttention.forward m x use_cache None = Raise RuntimeError_mask_shape.
Proof.
  intros Hn Hx. unfold MultiHeadAttention.forward.
  assert (MultiHeadAttention.extend use_cache None
            (MultiHeadAttention.heads m (MultiHeadAttention.key m) x)
            (MultiHeadAttention.heads m (MultiHeadAttention.value m) x) =
          (mha_kv m x, if use_cache then Some (mha_kv m x) else None)) as ->.
  { unfold MultiHeadAttention.extend, mha_kv. by destruct use_cache. }
  unfold mha_kv. rewrite dim_time_heads by done.
  unfold masked_fill3. by rewrite tril_broadcasts_long.
Qed.

(** One new position on top of a cache that holds the keys and values of
    the positions [xs] read so far. *)
Lemma mha_forward_step m xs (xt : list R) :
  length xs ≤ block_size + 1 →
  MultiHeadAttention.forward m [xt] true (Some (mha_kv m xs)) =
  Ok ([mha_row m (xs ++ [xt]) xt], Some (mha_kv m (xs ++ [xt]))).
Proof.
  intros Hx. unfold MultiHeadAttention.forward.
  assert (MultiHeadAttention.extend true (Some (mha_kv m xs))
            (MultiHeadAttention.heads m (MultiHeadAttention.key m) [xt])
            (MultiHeadAttention.heads m (MultiHeadAttention.value m) [xt]) =
          (mha_kv m (xs ++ [xt]), Some (mha_kv m (xs ++ [xt])))) as ->.
  { unfold MultiHeadAttention.extend, mha_kv.
    by rewrite !slice_last_heads, <- !heads_app by done. }
  unfold mha_kv, masked_fill3. cbn [length]. rewrite tril_broadcasts_step.
  cbn [bind]. unfold dropout. f_equal. f_equal.
  unfold MultiHeadAttention.scores. rewrite !heads_eq.
  rewrite heads_attention, merge_heads. cbn [seq map]. f_equal.
  unfold mha_row. f_equal. f_equal. apply map_ext. intros j.
  cbn [map]. by rewrite attention_head_step.
Qed.
End mha_step.

(** ** Blocks and the stack of blocks *)

Section causal_shape.
Context {A B : Type}.

(** Maps of the form [imap (fun t xt => F (take (S t) x) xt) x] read, at
    each position, the inputs up to that position only. *)
Lemma causal_length (F : list A → A → B) (x : list A) :
  length (imap (fun t xt => F (take (S t) x) xt) x) = length x.
Proof. apply length_imap. Qed.

Lemma causal_take (F : list A → A → B) (n : nat) (x : list A) :
  take n (imap (fun t xt => F (take (S t) x) xt) x) =
  imap (fun t xt => F (take (S t) (take n x)) xt) (take n x).
Proof.
  apply list_eq. intros i. rewrite list_lookup_imap.
  destruct (decide (i < n)) as [Hi|Hi].
  - rewrite !lookup_take_lt by done. rewrite list_lookup_imap.
    destruct (x !! i); cbn; [|done]. rewrite take_take.
    by rewrite Nat.min_l by lia.
  - rewrite !lookup_take_ge by lia. done.
Qed.

Lemma causal_snoc (F : list A → A → B) (x : list A) (y : A) :
  imap (fun t xt => F (take (S t) (x ++ [y])) xt) (x ++ [y]) =
  imap (fun t xt => F (take (S t) x) xt) x ++ [F (x ++ [y]) y].
Proof.
  rewrite imap_app. cbn. f_equal.
  - apply imap_ext. intros i xi Hi. apply lookup_lt_Some in Hi.
    by rewrite take_app_le by lia.
  - rewrite Nat.add_0_r. by rewrite take_ge by (rewrite length_app; cbn; lia).
Qed.
End causal_shape.

Section block_facts.
Context {R : Type} `{Scalar R}.
Implicit Types (b : Block.t R) (x xs : list (list R)).

Lemma block_causal_length b x : length (block_causal b x) = length x.
Proof. apply causal_length. Qed.

Lemma block_causal_take b n x :
  take n (block_causal b x) = block_causal b (take n x).
Proof. apply causal_take. Qed.

Lemma block_causal_snoc b x (y : list R) :
  block_causal b (x ++ [y]) = block_causal b x ++ [block_row b (x ++ [y]) y].
Proof. apply causal_snoc. Qed.

Lemma mha_causal_length (m : MultiHeadAttention.t R) x :
  length (mha_causal m x) = length x.
Proof. apply causal_length. Qed.

Lemma tadd_length (a c : list (list R)) :
  length (tadd a c) = length a `min` length c.
Proof. apply length_zip_with. Qed.

(** One new position through a block whose cache holds the positions [xs]. *)
Lemma block_forward_step b xs (xt : list R) :
  length xs ≤ block_size + 1 →
  Block.forward b [xt] true (Some (block_kv b xs)) =
  Ok ([block_row b (xs ++ [xt]) xt], Some (block_kv b (xs ++ [xt]))).
Proof.
  intros Hx. unfold Block.forward, block_kv. cbn [map].
  rewrite mha_forward_step by (rewrite length_map; done).
  cbn [bind fst snd]. unfold block_row, tadd, FeedForward.forward, dropout.
  rewrite !map_app. cbn [map zip_with]. done.
Qed.

Lemma block_forward_long b x (use_cache : bool) :
  0 < MultiHeadAttention.num_heads (Block.sa_heads b) → block_size < length x →
  Block.forward b x use_cache None = Raise RuntimeError_mask_shape.
Proof.
  intros Hn Hx. unfold Block.forward.
  by rewrite mha_forward_long by (rewrite ?length_map; done).
Qed.
End block_facts.

Section block_full.
Context {R : Type} `{ScalarLaws R}.
Implicit Types (b : Block.t R) (x xs : list (list R)).

(** A block over a whole sequence, without cache. *)
Lemma block_forward_full b x (use_cache : bool) :
  0 < MultiHeadAttention.num_heads (Block.sa_heads b) → length x ≤ block_size →
  Block.forward b x use_cache None =
  Ok (block_causal b x, if use_cache then Some (block_kv b x) else None).
Proof.
  intros Hn Hx. unfold Block.forward.
  rewrite mha_forward_full by (rewrite ?length_map; done).
  cbn [bind fst snd]. f_equal. f_equal.
  unfold block_causal, tadd, FeedForward.forward, dropout, mha_causal.
  apply list_eq. intros t.
  rewrite lookup_zip_with, list_lookup_fmap, list_lookup_fmap.
  rewrite lookup_zip_with, !list_lookup_imap, list_lookup_fmap.
  destruct (x !! t) as [xt|]; cbn; [|done].
  unfold block_row. by rewrite fmap_take.
Qed.
End block_full.

(** ** The loop over the blocks *)

Section shapes.
Context {R : Type} `{Scalar R}.
Implicit Types (b : Block.t R) (bs : list (Block.t R)) (x xs : list (list R)).

(** Success and shapes of a pass without cache, whatever the scalars. *)
Lemma mha_forward_shape (m : MultiHeadAttention.t R) x (use_cache : bool) :
  0 < MultiHeadAttention.num_heads m → length x ≤ block_size →
  ∃ out, MultiHeadAttention.forward m x use_cache None =
           Ok (out, if use_cache then Some (mha_kv m x) else None) ∧
         length out = length x.
Proof.
  intros Hn Hx. unfold MultiHeadAttention.forward.
  assert (MultiHeadAttention.extend use_cache None
            (MultiHeadAttention.heads m (MultiHeadAttention.key m) x)
            (MultiHeadAttention.heads m (MultiHeadAttention.value m) x) =
          (mha_kv m x, if use_cache then Some (mha_kv m x) else None)) as ->.
  { unfold MultiHeadAttention.extend, mha_kv. by destruct use_cache. }
  unfold mha_kv. rewrite dim_time_heads by done.
  unfold masked_fill3. rewrite tril_broadcasts_full by done.
  cbn [bind]. eexists. split; [reflexivity|].
  unfold dropout, transpose12. by rewrite !length_map, length_seq.
Qed.

Lemma block_forward_shape b x (use_cache : bool) :
  0 < MultiHeadAttention.num_heads (Block.sa_heads b) → length x ≤ block_size →
  ∃ out, Block.forward b x use_cache None =
           Ok (out, if use_cache then Some (block_kv b x) else None) ∧
         length out = length x.
Proof.
  intros Hn Hx. unfold Block.forward.
  destruct (mha_forward_shape (Block.sa_heads b) (map (Block.ln1 b) x) use_cache)
    as (a & -> & Ha); [done|by rewrite length_map|].
  rewrite length_map in Ha. cbn [bind fst snd].
  eexists. split; [reflexivity|].
  unfold FeedForward.forward. rewrite !tadd_length, !length_map, !tadd_length. lia.
Qed.

Lemma kv_caches_cons b bs (xi : list (list R)) ins :
  kv_caches (b :: bs) (xi :: ins) = Some (block_kv b xi) :: kv_caches bs ins.
Proof. done. Qed.

Lemma run_blocks_shape bs x acc :
  Forall (fun b => 0 < MultiHeadAttention.num_heads (Block.sa_heads b)) bs →
  length x ≤ block_size →
  ∃ out ins,
    NanoGPTLanguageModel.run_blocks (zip bs (replicate (length bs) None)) x true acc =
      Ok (out, acc ++ kv_caches bs ins) ∧
    length out = length x ∧ length ins = length bs ∧
    Forall (fun xi => length xi = length x) ins.
Proof.
  intros Hbs. revert x acc. induction Hbs as [|b bs Hb Hbs IH]; intros x acc Hx.
  - exists x, []. cbn. rewrite app_nil_r. by repeat split.
  - cbn [length replicate zip zip_with NanoGPTLanguageModel.run_blocks].
    destruct (block_forward_shape b x true) as (out & -> & Hout); [done..|].
    cbn [bind fst snd].
    destruct (IH out (acc ++ [Some (block_kv b x)])) as (o & ins & -> & Ho & Hl & Hins);
      [lia|].
    exists o, (x :: ins). rewrite kv_caches_cons, <- app_assoc. cbn [app].
    repeat split; [lia|cbn; lia|].
    constructor; [done|]. eapply Forall_impl; [done|]. cbn. intros; lia.
Qed.

Lemma run_blocks_step_shape bs (ins : list (list (list R))) (L : nat) (y : list R) acc :
  length ins = length bs → Forall (fun xi => length xi = L) ins →
  L ≤ block_size + 1 →
  ∃ z ins',
    NanoGPTLanguageModel.run_blocks (zip bs (kv_caches bs ins)) [y] true acc =
      Ok ([z], acc ++ kv_caches bs ins') ∧
    length ins' = length bs ∧ Forall (fun xi => length xi = S L) ins'.
Proof.
  intros Hl Hins HL. revert bs y acc Hl.
  induction Hins as [|xi ins Hxi Hins IH]; intros [|b bs] y acc Hl; try done.
  - exists y, []. cbn. rewrite app_nil_r. by repeat split.
  - rewrite kv_caches_cons.
    cbn [zip zip_with NanoGPTLanguageModel.run_blocks].
    rewrite block_forward_step by lia. cbn [bind fst snd].
    destruct (IH bs (block_row b (xi ++ [y]) y)
                (acc ++ [Some (block_kv b (xi ++ [y]))])) as (z & ins' & -> & Hl' & Hins');
      [by injection Hl|].
    exists z, ((xi ++ [y]) :: ins'). rewrite kv_caches_cons, <- app_assoc. cbn [app].
    repeat split; [cbn; lia|].
    constructor; [|done]. rewrite length_app. cbn. lia.
Qed.

Lemma hidden_cons b bs x : hidden (b :: bs) x = hidden bs (block_causal b x).
Proof. done. Qed.

Lemma hidden_length bs x : length (hidden bs x) = length x.
Proof.
  revert x. induction bs as [|b bs IH]; intros x; [done|].
  by rewrite hidden_cons, IH, block_causal_length.
Qed.

Lemma hidden_take bs n x : take n (hidden bs x) = hidden bs (take n x).
Proof.
  revert x. induction bs as [|b bs IH]; intros x; [done|].
  by rewrite !hidden_cons, IH, block_causal_take.
Qed.

Lemma layer_inputs_length bs x : length (layer_inputs bs x) = length bs.
Proof. revert x. induction bs as [|b bs IH]; intros x; cbn; [done|]. by rewrite IH. Qed.

Lemma layer_inputs_lengths bs x :
  Forall (fun xi => length xi = length x) (layer_inputs bs x).
Proof.
  revert x. induction bs as [|b bs IH]; intros x; cbn; constructor; [done|].
  specialize (IH (block_causal b x)). by rewrite block_causal_length in IH.
Qed.

(** One new position through the stack, the caches holding the positions
    read so far: the caches grow by the position, and the output is the
    new last row of the stack's output. *)
Lemma run_blocks_step bs x (y : list R) acc :
  length x ≤ block_size + 1 →
  ∃ z,
    NanoGPTLanguageModel.run_blocks (zip bs (kv_caches bs (layer_inputs bs x)))
      [y] true acc =
      Ok ([z], acc ++ kv_caches bs (layer_inputs bs (x ++ [y]))) ∧
    hidden bs (x ++ [y]) = hidden bs x ++ [z].
Proof.
  revert x y acc. induction bs as [|b bs IH]; intros x y acc Hx.
  - exists y. cbn. by rewrite app_nil_r.
  - rewrite !hidden_cons. cbn [layer_inputs]. rewrite !kv_caches_cons.
    cbn [zip zip_with NanoGPTLanguageModel.run_blocks].
    rewrite block_forward_step by done. cbn [bind fst snd].
    rewrite block_causal_snoc.
    destruct (IH (block_causal b x) (block_row b (x ++ [y]) y)
                (acc ++ [Some (block_kv b (x ++ [y]))])) as (z & -> & Hz);
      [by rewrite block_causal_length|].
    exists z. rewrite <- app_assoc. cbn [app]. split; [done|]. apply Hz.
Qed.
End shapes.

Section stack_full.
Context {R : Type} `{ScalarLaws R}.
Implicit Types (b : Block.t R) (bs : list (Block.t R)) (x xs : list (list R)).

(** The whole stack over a whole sequence, without cache. *)
Lemma run_blocks_full bs x (use_cache : bool) acc :
  Forall (fun b => 0 < MultiHeadAttention.num_heads (Block.sa_heads b)) bs →
  length x ≤ block_size →
  NanoGPTLanguageModel.run_blocks (zip bs (replicate (length bs) None)) x use_cache acc =
  Ok (hidden bs x,
      acc ++ (if use_cache then kv_caches bs (layer_inputs bs x)
              else replicate (length bs) None)).
Proof.
  intros Hbs. revert x acc. induction Hbs as [|b bs Hb Hbs IH]; intros x acc Hx.
  - cbn. f_equal. f_equal. destruct use_cache; by rewrite app_nil_r.
  - cbn [length replicate zip zip_with NanoGPTLanguageModel.run_blocks].
    rewrite block_forward_full by done. cbn [bind fst snd].
    rewrite IH by (by rewrite block_causal_length).
    rewrite hidden_cons. cbn [layer_inputs]. f_equal. f_equal.
    rewrite <- app_assoc. by destruct use_cache.
Qed.
End stack_full.

(** ** The forward pass of the model *)

Section embedding.
Context {R : Type}.

Lemma embedding_forward_Ok (err : nat → exception) (e : Embedding R) (ids : list nat) :
  Forall (fun i => i < num_embeddings e) ids →
  Embedding_forward err e ids = Ok (map (weight e) ids).
Proof.
  intros Hids. unfold Embedding_forward. apply mapM_Ok. intros i Hi.
  rewrite Forall_forall in Hids. by rewrite bool_decide_eq_true_2 by auto.
Qed.

Lemma embedding_forward_Raise (err : nat → exception) (e : Embedding R)
    (l1 l2 : list nat) (i : nat) :
  Forall (fun i => i < num_embeddings e) l1 → num_embeddings e ≤ i →
  Embedding_forward err e (l1 ++ i :: l2) = Raise (err i).
Proof.
  intros Hl Hi. unfold Embedding_forward. apply mapM_Raise.
  - intros j Hj. rewrite Forall_forall in Hl.
    rewrite bool_decide_eq_true_2 by auto. eauto.
  - by rewrite bool_decide_eq_false_2 by lia.
Qed.

Lemma embedding_forward_inv (err : nat → exception) (e : Embedding R)
    (ids : list nat) (l : list (list R)) :
  Embedding_forward err e ids = Ok l → Forall (fun i => i < num_embeddings e) ids.
Proof.
  unfold Embedding_forward. revert l. induction ids as [|i ids IH]; intros l; [done|].
  cbn. case_bool_decide; [|done]. cbn.
  destruct (mapM _ ids) eqn:E; cbn; [|done]. intros _. constructor; [done|].
  by eapply IH.
Qed.
End embedding.

Section forward_facts.
Context {R : Type} `{Scalar R}.
Implicit Types (M : NanoGPTLanguageModel.t R) (s idx : list nat).

Lemma constructed_heads M :
  constructed M →
  Forall (fun b => 0 < MultiHeadAttention.num_heads (Block.sa_heads b))
         (NanoGPTLanguageModel.blocks M).
Proof.
  intros (_ & Hh & _). eapply Forall_impl; [done|]. cbn. intros b ->. unfold n_head. lia.
Qed.

Lemma constructed_init (vocab_size : nat) (W : NanoGPTLanguageModel.weights R) :
  constructed (NanoGPTLanguageModel.init vocab_size W).
Proof.
  unfold constructed, NanoGPTLanguageModel.init.
  cbn [NanoGPTLanguageModel.blocks NanoGPTLanguageModel.position_embedding_table
       num_embeddings].
  split_and!.
  - by rewrite length_map, length_seq.
  - apply Forall_forall. intros b Hb. apply list_elem_of_fmap in Hb as (l & -> & _). done.
  - done.
Qed.

Lemma history_length_start :
  NanoGPTLanguageModel.history_length (R:=R) (Some (replicate n_layer None)) = 0.
Proof. done. Qed.

Lemma history_length_cache_state M (L : nat) caches :
  constructed M → cache_state M L caches →
  NanoGPTLanguageModel.history_length (Some caches) = L.
Proof.
  intros HM (ins & -> & Hl & Hins).
  pose proof (constructed_heads M HM) as Hh. destruct HM as (Hn & _ & _).
  destruct (NanoGPTLanguageModel.blocks M) as [|b bs]; [done|].
  destruct ins as [|xi ins]; [done|].
  apply Forall_cons in Hh as [Hb _]. apply Forall_cons in Hins as [Hxi _].
  cbn. unfold block_kv, mha_kv. cbn.
  by rewrite dim_time_heads, length_map.
Qed.

Lemma embed_length M s : length (embed M s) = length s.
Proof. unfold embed. rewrite tadd_length, !length_map, length_seq. lia. Qed.

Lemma embed_snoc M s (tok : nat) :
  embed M (s ++ [tok]) =
  embed M s ++
    [zip_with radd (weight (NanoGPTLanguageModel.token_embedding_table M) tok)
                   (weight (NanoGPTLanguageModel.position_embedding_table M) (length s))].
Proof.
  unfold embed, tadd. rewrite length_app. cbn [length].
  rewrite seq_app, !map_app. cbn [seq map].
  rewrite zip_with_app by (by rewrite !length_map, length_seq).
  done.
Qed.

Lemma embed_take M (n : nat) s : take n (embed M s) = embed M (take n s).
Proof.
  unfold embed, tadd. rewrite zip_with_take, <- !fmap_take.
  by rewrite take_seq, length_take.
Qed.

Lemma cache_state_causal M s : cache_state M (length s) (caches_causal M s).
Proof.
  eexists. split; [reflexivity|]. split; [apply layer_inputs_length|].
  pose proof (layer_inputs_lengths (NanoGPTLanguageModel.blocks M) (embed M s)) as Hl.
  by rewrite embed_length in Hl.
Qed.

Lemma forward_token_error M idx targets (use_cache : bool) caches (e : exception) :
  Embedding_forward IndexError_token (NanoGPTLanguageModel.token_embedding_table M) idx
    = Raise e →
  NanoGPTLanguageModel.forward M idx targets use_cache caches = Raise e.
Proof. intros He. unfold NanoGPTLanguageModel.forward. by rewrite He. Qed.

(** A prompt longer than the position table. *)
Lemma forward_prompt_overflow M idx targets (use_cache : bool) :
  constructed M → in_vocab M idx → block_size < length idx →
  NanoGPTLanguageModel.forward M idx targets use_cache (Some (replicate n_layer None)) =
  Raise (IndexError_position block_size).
Proof.
  intros HM Hv Hl. unfold NanoGPTLanguageModel.forward.
  rewrite embedding_forward_Ok by done. cbn [bind].
  rewrite history_length_start.
  replace (length idx) with (block_size + S (length idx - S block_size)) by lia.
  rewrite seq_app, map_app. cbn [seq map]. rewrite !Nat.add_0_r.
  destruct HM as (_ & _ & Hp).
  rewrite embedding_forward_Raise; [done| |lia].
  apply Forall_forall. intros i Hi. apply list_elem_of_fmap in Hi as (j & -> & Hj).
  apply elem_of_seq in Hj. lia.
Qed.

(** One new token on top of caches that hold [L] positions. *)
Lemma forward_step_overflow M (L tok : nat) caches :
  constructed M → cache_state M L caches → in_vocab M [tok] → block_size ≤ L →
  NanoGPTLanguageModel.forward M [tok] None true (Some caches) =
  Raise (IndexError_position L).
Proof.
  intros HM Hc Hv HL. unfold NanoGPTLanguageModel.forward.
  rewrite embedding_forward_Ok by done. cbn [bind].
  rewrite (history_length_cache_state M L) by done.
  cbn [length seq map]. destruct HM as (_ & _ & Hp).
  assert (num_embeddings (NanoGPTLanguageModel.position_embedding_table M) ≤ 0 + L)
    as Hi by lia.
  apply (embedding_forward_Raise IndexError_position _ [] []) in Hi; [|done].
  cbn [app] in Hi. by rewrite Hi.
Qed.

Lemma forward_step_shape M (L tok : nat) caches :
  constructed M → cache_state M L caches → in_vocab M [tok] → L < block_size →
  ∃ h caches',
    NanoGPTLanguageModel.forward M [tok] None true (Some caches) =
      Ok (NanoGPTLanguageModel.Out3 [NanoGPTLanguageModel.lm_head M h] None caches') ∧
    cache_state M (S L) caches'.
Proof.
  intros HM Hc Hv HL. unfold NanoGPTLanguageModel.forward.
  rewrite embedding_forward_Ok by done. cbn [bind].
  rewrite (history_length_cache_state M L) by done.
  cbn [length seq map]. pose proof HM as (_ & _ & Hp).
  rewrite embedding_forward_Ok by (constructor; [cbn; lia|done]).
  cbn [bind map]. destruct Hc as (ins & -> & Hl & Hins).
  destruct (run_blocks_step_shape (NanoGPTLanguageModel.blocks M) ins L
              (zip_with radd
                 (weight (NanoGPTLanguageModel.token_embedding_table M) tok)
                 (weight (NanoGPTLanguageModel.position_embedding_table M) (0 + L))) [])
    as (z & ins' & Hrun & Hl' & Hins'); [done|done|lia|].
  unfold tadd. cbn [zip_with]. rewrite Hrun. cbn [bind fst snd map app].
  eexists _, _. split; [reflexivity|]. by exists ins'.
Qed.

Lemma forward_prompt_shape M idx :
  constructed M → in_vocab M idx → length idx ≤ block_size →
  ∃ hs caches,
    NanoGPTLanguageModel.forward M idx None true (Some (replicate n_layer None)) =
      Ok (NanoGPTLanguageModel.Out3 (map (NanoGPTLanguageModel.lm_head M) hs) None caches) ∧
    length hs = length idx ∧ cache_state M (length idx) caches.
Proof.
  intros HM Hv Hl. unfold NanoGPTLanguageModel.forward.
  rewrite embedding_forward_Ok by done. cbn [bind].
  rewrite history_length_start. pose proof HM as (Hn & _ & Hp).
  rewrite embedding_forward_Ok.
  2:{ apply Forall_forall. intros i Hi. apply list_elem_of_fmap in Hi as (j & -> & Hj).
      apply elem_of_seq in Hj. lia. }
  cbn [bind]. rewrite <- Hn.
  destruct (run_blocks_shape (NanoGPTLanguageModel.blocks M)
              (tadd (map (weight (NanoGPTLanguageModel.token_embedding_table M)) idx)
                    (map (weight (NanoGPTLanguageModel.position_embedding_table M))
                         (map (fun i => i + 0) (seq 0 (length idx))))) [])
    as (out & ins & Hrun & Hout & Hins & Hlen).
  { by apply constructed_heads. }
  { rewrite tadd_length, !length_map, length_seq. lia. }
  rewrite Hrun. cbn [bind fst snd app].
  rewrite tadd_length, !length_map, length_seq, Nat.min_id in Hout, Hlen.
  eexists _, _. split; [reflexivity|]. split; [by rewrite length_map|].
  by exists ins.
Qed.

(** One new token on top of the caches of the sequence [s]. *)
Lemma forward_step M s (tok : nat) :
  constructed M → in_vocab M [tok] → length s < block_size →
  ∃ row,
    NanoGPTLanguageModel.forward M [tok] None true (Some (caches_causal M s)) =
      Ok (NanoGPTLanguageModel.Out3 [row] None (caches_causal M (s ++ [tok]))) ∧
    logits_causal M (s ++ [tok]) = logits_causal M s ++ [row].
Proof.
  intros HM Hv HL. unfold NanoGPTLanguageModel.forward.
  rewrite embedding_forward_Ok by done. cbn [bind].
  rewrite (history_length_cache_state M (length s)) by (done || apply cache_state_causal).
  cbn [length seq map]. pose proof HM as (_ & _ & Hp).
  rewrite embedding_forward_Ok by (constructor; [cbn; lia|done]).
  cbn [bind map]. unfold caches_causal, logits_causal.
  destruct (run_blocks_step (NanoGPTLanguageModel.blocks M) (embed M s)
              (zip_with radd
                 (weight (NanoGPTLanguageModel.token_embedding_table M) tok)
                 (weight (NanoGPTLanguageModel.position_embedding_table M)
                         (0 + length s))) [])
    as (z & Hrun & Hz); [rewrite embed_length; lia|].
  unfold tadd. cbn [zip_with]. rewrite Hrun. cbn [bind fst snd map app].
  rewrite embed_snoc. cbn [Nat.add] in Hz. rewrite Hz.
  eexists. split; [reflexivity|]. by rewrite !map_app.
Qed.

(** The logits at a position depend on the tokens up to it only. *)
Lemma logits_causal_take M (n : nat) s :
  take n (logits_causal M s) = logits_causal M (take n s).
Proof.
  unfold logits_causal. by rewrite <- !fmap_take, hidden_take, embed_take.
Qed.

Lemma logits_causal_length M s : length (logits_causal M s) = length s.
Proof. unfold logits_causal. by rewrite !length_map, hidden_length, embed_length. Qed.
End forward_facts.

Section forward_full.
Context {R : Type} `{ScalarLaws R}.
Implicit Types (M : NanoGPTLanguageModel.t R) (s idx : list nat).

(** A pass over a whole sequence, without cache: the logits of the
    sequence and, when asked to, the cache of each block. *)
Lemma forward_full M idx (use_cache : bool) :
  constructed M → in_vocab M idx → length idx ≤ block_size →
  NanoGPTLanguageModel.forward M idx None use_cache (Some (replicate n_layer None)) =
  Ok (if use_cache
      then NanoGPTLanguageModel.Out3 (logits_causal M idx) None (caches_causal M idx)
      else NanoGPTLanguageModel.Out2 (logits_causal M idx) None).
Proof.
  intros HM Hv Hl. unfold NanoGPTLanguageModel.forward.
  rewrite embedding_forward_Ok by done. cbn [bind].
  rewrite history_length_start. pose proof HM as (Hn & _ & Hp).
  rewrite embedding_forward_Ok.
  2:{ apply Forall_forall. intros i Hi. apply list_elem_of_fmap in Hi as (j & -> & Hj).
      apply elem_of_seq in Hj. lia. }
  cbn [bind]. rewrite <- Hn.
  assert (map (fun i => i + 0) (seq 0 (length idx)) = seq 0 (length idx)) as ->.
  { rewrite <- (map_id (seq 0 (length idx))) at 2. apply map_ext. intros; lia. }
  fold (embed M idx).
  rewrite run_blocks_full by (rewrite ?embed_length; auto using constructed_heads).
  cbn [bind fst snd app]. by destruct use_cache.
Qed.
End forward_full.

(** ** The generation loop *)

Section generate_facts.
Context {R : Type} `{Scalar R} {G : Type} `{Sampler G R}.
Implicit Types (M : NanoGPTLanguageModel.t R) (s idx : list nat) (g : G).

Lemma softmax_length (l : list R) : length (softmax l) = length l.
Proof. unfold softmax. by rewrite !length_map. Qed.

(** The token drawn from a row of logits is a token id. *)
Lemma sample_in_vocab M (h : list R) g (tok : nat) :
  lm_head_width M → sampler_in_range (G:=G) → in_vocab M [tok] →
  in_vocab M [(multinomial g (softmax (NanoGPTLanguageModel.lm_head M h))).1].
Proof.
  intros Hw Hs Htok. constructor; [|done].
  specialize (Hs g (softmax (NanoGPTLanguageModel.lm_head M h))).
  rewrite softmax_length, Hw in Hs. apply Hs.
  intros Hnil. apply (f_equal length) in Hnil.
  rewrite softmax_length, Hw in Hnil. apply Forall_cons in Htok as [Htok _].
  cbn in Hnil. lia.
Qed.

(** The successful runs of the loop are the runs [gen_run] describes. *)
Lemma generate_loop_gen_run M (n : nat) curr_idx idx cache g out g' :
  NanoGPTLanguageModel.generate_loop M n curr_idx idx cache g = Ok (out, g') →
  gen_run M n curr_idx idx cache g out g'.
Proof.
  revert curr_idx idx cache g. induction n as [|n IH]; intros curr_idx idx cache g.
  - cbn. intros [= <- <-]. constructor.
  - cbn [NanoGPTLanguageModel.generate_loop].
    destruct (NanoGPTLanguageModel.forward M curr_idx None true (Some cache))
      as [[logits loss|logits loss cache']|e] eqn:Hf; cbn [bind]; [done| |done].
    destruct (last logits) as [row|] eqn:Hrow; cbn [bind]; [|done].
    destruct (multinomial g (softmax row)) as [idx_next g1] eqn:Hm.
    intros Hrun. apply IH in Hrun.
    assert (loss = None) as ->.
    { revert Hf. unfold NanoGPTLanguageModel.forward.
      destruct (Embedding_forward IndexError_token _ _); cbn [bind]; [|done].
      destruct (Embedding_forward IndexError_position _ _); cbn [bind]; [|done].
      destruct (NanoGPTLanguageModel.run_blocks _ _ _ _); cbn [bind]; [|done].
      by intros [= _ <- _]. }
    by eapply gen_run_step.
Qed.

(** The steps after the first: the caches hold [L] positions and one token
    is fed.  They succeed as long as the position of the token fed is a
    row of the position table. *)
Lemma generate_loop_steps M (n L tok : nat) idx cache g :
  constructed M → lm_head_width M → sampler_in_range (G:=G) →
  in_vocab M [tok] → cache_state M L cache → L + n ≤ block_size →
  ∃ out g',
    NanoGPTLanguageModel.generate_loop M n [tok] idx cache g = Ok (out, g') ∧
    length out = length idx + n ∧
    (in_vocab M idx → in_vocab M out).
Proof.
  intros HM Hw Hs. revert L tok idx cache g.
  induction n as [|n IH]; intros L tok idx cache g Htok Hc HL.
  - exists idx, g. cbn. split_and!; [done|lia|done].
  - destruct (forward_step_shape M L tok cache) as (h & cache' & Hf & Hc');
      [done|done|done|lia|].
    cbn [NanoGPTLanguageModel.generate_loop]. rewrite Hf. cbn [bind last].
    pose proof (sample_in_vocab M h g tok Hw Hs Htok) as Hnext.
    destruct (multinomial g (softmax (NanoGPTLanguageModel.lm_head M h)))
      as [idx_next g1]. cbn [fst] in Hnext.
    destruct (IH (S L) idx_next (idx ++ [idx_next]) cache' g1)
      as (out & g' & Hrun & Hlen & Hin); [done|done|lia|].
    exists out, g'. split_and!; [done| |].
    + rewrite Hlen, length_app. cbn. lia.
    + intros Hidx. apply Hin. by apply Forall_app.
Qed.

(** They fail when the token fed stands at position [block_size]. *)
Lemma generate_loop_overflow M (n L tok : nat) idx cache g :
  constructed M → lm_head_width M → sampler_in_range (G:=G) →
  in_vocab M [tok] → cache_state M L cache → L ≤ block_size → block_size < L + n →
  NanoGPTLanguageModel.generate_loop M n [tok] idx cache g =
  Raise (IndexError_position block_size).
Proof.
  intros HM Hw Hs. revert L tok idx cache g.
  induction n as [|n IH]; intros L tok idx cache g Htok Hc HL Hn; [lia|].
  cbn [NanoGPTLanguageModel.generate_loop].
  destruct (decide (L = block_size)) as [->|HL'].
  - by rewrite (forward_step_overflow M block_size tok cache).
  - destruct (forward_step_shape M L tok cache) as (h & cache' & Hf & Hc');
      [done|done|done|lia|].
    rewrite Hf. cbn [bind last].
    pose proof (sample_in_vocab M h g tok Hw Hs Htok) as Hnext.
    destruct (multinomial g (softmax (NanoGPTLanguageModel.lm_head M h)))
      as [idx_next g1]. cbn [fst] in Hnext.
    apply (IH (S L)); [done|done|lia|lia].
Qed.

(** The first step reads the whole prompt. *)
Lemma generate_first_step M (n : nat) idx g :
  constructed M → in_vocab M idx → 1 ≤ length idx ≤ block_size →
  ∃ h cache,
    cache_state M (length idx) cache ∧
    NanoGPTLanguageModel.generate M idx (S n) g =
      (let r := multinomial g (softmax (NanoGPTLanguageModel.lm_head M h)) in
       NanoGPTLanguageModel.generate_loop M n [r.1] (idx ++ [r.1]) cache r.2).
Proof.
  intros HM Hidx Hl.
  destruct (forward_prompt_shape M idx) as (hs & cache & Hf & Hhs & Hc);
    [done|done|lia|].
  destruct (last hs) as [h|] eqn:Hh.
  2:{ apply last_None in Hh. subst hs. cbn in Hhs. lia. }
  exists h, cache. split; [done|].
  unfold NanoGPTLanguageModel.generate.
  cbn [NanoGPTLanguageModel.generate_loop]. rewrite Hf. cbn [bind].
  rewrite fmap_last, Hh. cbn [fmap option_fmap option_map bind].
  by destruct (multinomial g (softmax (NanoGPTLanguageModel.lm_head M h))).
Qed.

Lemma generate_ok M (N : nat) idx g :
  constructed M → lm_head_width M → sampler_in_range (G:=G) → in_vocab M idx →
  N = 0 ∨ (1 ≤ length idx ∧ length idx + N ≤ block_size + 1) →
  ∃ out g',
    NanoGPTLanguageModel.generate M idx N g = Ok (out, g') ∧
    length out = length idx + N ∧ in_vocab M out.
Proof.
  intros HM Hw Hs Hidx HN. destruct N as [|n].
  { exists idx, g. split_and!; [done|lia|done]. }
  destruct HN as [|[HT HN]]; [done|].
  destruct (generate_first_step M n idx g) as (h & cache & Hc & ->); [done|done|lia|].
  assert (in_vocab M [hd 0 idx]) as Htok.
  { destruct idx as [|tok idx]; [cbn in HT; lia|].
    apply Forall_cons in Hidx as [? _]. by constructor. }
  pose proof (sample_in_vocab M h g _ Hw Hs Htok) as Hnext. cbn zeta.
  destruct (multinomial g (softmax (NanoGPTLanguageModel.lm_head M h)))
    as [idx_next g1]. cbn [fst snd] in *.
  destruct (generate_loop_steps M n (length idx) idx_next (idx ++ [idx_next]) cache g1)
    as (out & g' & Hrun & Hlen & Hin); [done|done|done|done|done|lia|].
  exists out, g'. split_and!; [done| |].
  - rewrite Hlen, length_app. cbn. lia.
  - apply Hin. by apply Forall_app.
Qed.

Lemma generate_overflow M (N : nat) idx g :
  constructed M → lm_head_width M → sampler_in_range (G:=G) → in_vocab M idx →
  1 ≤ length idx → 1 ≤ N → block_size + 2 ≤ length idx + N →
  NanoGPTLanguageModel.generate M idx N g = Raise (IndexError_position block_size).
Proof.
  intros HM Hw Hs Hidx HT HN Hover. destruct N as [|n]; [lia|].
  destruct (decide (length idx ≤ block_size)) as [Hl|Hl].
  - destruct (generate_first_step M n idx g) as (h & cache & Hc & ->); [done|done|lia|].
    assert (in_vocab M [hd 0 idx]) as Htok.
    { destruct idx as [|tok idx]; [cbn in HT; lia|].
      apply Forall_cons in Hidx as [? _]. by constructor. }
    pose proof (sample_in_vocab M h g _ Hw Hs Htok) as Hnext. cbn zeta.
    destruct (multinomial g (softmax (NanoGPTLanguageModel.lm_head M h)))
      as [idx_next g1]. cbn [fst snd] in *.
    apply (generate_loop_overflow M n (length idx)); [done|done|done|done|done|lia|lia].
  - unfold NanoGPTLanguageModel.generate.
    cbn [NanoGPTLanguageModel.generate_loop].
    by rewrite forward_prompt_overflow by (done || lia).
Qed.
End generate_facts.

Section generate_cache.
Context {R : Type} `{ScalarLaws R} {G : Type} `{Sampler G R}.
Implicit Types (M : NanoGPTLanguageModel.t R) (s idx : list nat) (g : G).

(** After the first step the cached loop and the loop of full passes take
    the same steps. *)
Lemma generate_loop_full M (n tok : nat) s g :
  constructed M → in_vocab M s → length s ≤ block_size →
  NanoGPTLanguageModel.generate_loop M n [tok] (s ++ [tok]) (caches_causal M s) g =
  NanoGPTLanguageModel.generate_full_loop M n (s ++ [tok]) g.
Proof.
  intros HM. revert tok s g. induction n as [|n IH]; intros tok s g Hs Hl; [done|].
  cbn [NanoGPTLanguageModel.generate_loop NanoGPTLanguageModel.generate_full_loop].
  destruct (decide (tok < num_embeddings (NanoGPTLanguageModel.token_embedding_table M)))
    as [Htok|Htok].
  - assert (in_vocab M [tok]) as Htok' by (by constructor).
    destruct (decide (length s = block_size)) as [Hfull|Hfull].
    + rewrite (forward_step_overflow M (length s) tok)
        by (done || lia || apply cache_state_causal).
      rewrite forward_prompt_overflow;
        [by rewrite Hfull|done|by apply Forall_app|rewrite length_app; cbn; lia].
    + destruct (forward_step M s tok) as (row & Hf & Hrow); [done|done|lia|].
      rewrite Hf. rewrite forward_full;
        [|done|by apply Forall_app|rewrite length_app; cbn; lia].
      cbn [bind]. rewrite Hrow, last_snoc. cbn [last bind].
      destruct (multinomial g (softmax row)) as [idx_next g1].
      apply IH; [by apply Forall_app|rewrite length_app; cbn; lia].
  - rewrite (forward_token_error M [tok] None true _ (IndexError_token tok)).
    2:{ apply (embedding_forward_Raise IndexError_token _ [] []); [done|lia]. }
    rewrite (forward_token_error M (s ++ [tok]) None false _ (IndexError_token tok)).
    2:{ apply embedding_forward_Raise; [done|lia]. }
    done.
Qed.

Lemma generate_generate_full M (N : nat) idx g :
  constructed M →
  NanoGPTLanguageModel.generate M idx N g = NanoGPTLanguageModel.generate_full M idx N g.
Proof.
  intros HM. unfold NanoGPTLanguageModel.generate, NanoGPTLanguageModel.generate_full.
  destruct N as [|n]; [done|].
  cbn [NanoGPTLanguageModel.generate_loop NanoGPTLanguageModel.generate_full_loop].
  destruct (Embedding_forward IndexError_token
              (NanoGPTLanguageModel.token_embedding_table M) idx) as [emb|e] eqn:Htok.
  2:{ by rewrite !(forward_token_error M idx None _ _ e). }
  apply embedding_forward_inv in Htok.
  destruct (decide (length idx ≤ block_size)) as [Hl|Hl].
  - rewrite !forward_full by done. cbn [bind].
    destruct (last (logits_causal M idx)) as [row|]; cbn [bind]; [|done].
    destruct (multinomial g (softmax row)) as [idx_next g1].
    by apply generate_loop_full.
  - by rewrite !forward_prompt_overflow by (done || lia).
Qed.
End generate_cache.

(** ** Facts about the small model *)

#[local] Existing Instance Toy.Z_scalar.
#[local] Existing Instance Toy.first_class.

Lemma Toy_Z_laws : ScalarLaws Z.
Proof.
  split; cbn.
  - intros x. lia.
  - done.
  - intros x. apply Zdiv_0_l.
  - done.
Qed.

Lemma Toy_vocab_size : Vocab.vocab_size Toy.text = 3.
Proof. by vm_compute. Qed.

Lemma Toy_constructed : constructed Toy.model.
Proof. apply constructed_init. Qed.

Lemma Toy_lm_head_width : lm_head_width Toy.model.
Proof. intros v. cbn. by rewrite length_replicate. Qed.

Lemma Toy_sampler_in_range : sampler_in_range (R:=Z) (G:=nat).
Proof.
  intros g probs Hp. cbn. destruct probs; [done|]. cbn. lia.
Qed.

Lemma Toy_in_vocab (s : list nat) : Forall (fun i => i < 3) s → in_vocab Toy.model s.
Proof. unfold in_vocab. cbn. by rewrite Toy_vocab_size. Qed.

#[local] Existing Instance Toy_Z_laws.

(** ** The claims of the specification *)

(** C1. Training mode, as the callers of lines 54 and 291 use it
    ([model(X, Y)]: targets given, [use_cache] and [blocks_kvcache] left at
    their defaults).  The claim is that logits and the cross-entropy loss
    are returned.  The code does not get that far: with the default
    [blocks_kvcache=None], line 232 evaluates [zip(self.blocks, None)], which
    raises [TypeError].  For every batch of token ids of the vocabulary that
    fits the position table, with or without targets, [forward] with the
    default cache raises and returns neither logits nor loss. *)
Theorem forward_default_cache_raises {R : Type} `{Scalar R}
    (M : NanoGPTLanguageModel.t R) (idx : list nat) (targets : option (list nat))
    (use_cache : bool) :
  in_vocab M idx →
  length idx ≤ num_embeddings (NanoGPTLanguageModel.position_embedding_table M) →
  NanoGPTLanguageModel.forward M idx targets use_cache None = Raise TypeError_zip_None.
Proof.
  intros Hidx Hlen. unfold NanoGPTLanguageModel.forward.
  rewrite embedding_forward_Ok by done. cbn [bind NanoGPTLanguageModel.history_length].
  rewrite embedding_forward_Ok; [done|].
  apply Forall_forall. intros i Hi. apply list_elem_of_fmap in Hi as (j & -> & Hj).
  apply elem_of_seq in Hj. lia.
Qed.

Lemma forward_default_cache_raises_witness :
  NanoGPTLanguageModel.forward Toy.model [0; 1; 2] (Some [1; 2; 0]) false None =
  Raise TypeError_zip_None.
Proof.
  apply (forward_default_cache_raises Toy.model [0; 1; 2] (Some [1; 2; 0]) false).
  - apply Toy_in_vocab. repeat constructor.
  - cbn. unfold block_size. lia.
Defined.

(** The slice of line 133 alone does not bound the cache: it keeps the last
    [block_size + 1] cached time steps, and line 134 appends the new one, so
    that a direct call with a cache of [block_size] (or [block_size + 1])
    time steps returns a cache of one more.  No run of [generate] makes such
    a call: see the bound on the caches of a run further down. *)
Lemma mha_cache_exceeds_block_size {R : Type} `{Scalar R}
    (m : MultiHeadAttention.t R) (xs : list (list R)) (xt : list R) :
  0 < MultiHeadAttention.num_heads m →
  block_size ≤ length xs ≤ block_size + 1 →
  ∃ out k v,
    MultiHeadAttention.forward m [xt] true (Some (mha_kv m xs)) = Ok (out, Some (k, v)) ∧
    dim_time (mha_kv m xs).1 = length xs ∧
    dim_time k = length xs + 1 ∧ dim_time v = length xs + 1 ∧
    block_size < dim_time k.
Proof.
  intros Hn Hxs. rewrite mha_forward_step by lia.
  eexists _, _, _. split; [reflexivity|]. unfold mha_kv. cbn [fst].
  rewrite !dim_time_heads, length_app by done. cbn [length]. lia.
Qed.

Section claims_causal.
Context {R : Type} `{ScalarLaws R}.
Implicit Types (M : NanoGPTLanguageModel.t R) (m : MultiHeadAttention.t R).

Lemma mha_causal_take m (n : nat) (x : list (list R)) :
  take n (mha_causal m x) = mha_causal m (take n x).
Proof. apply causal_take. Qed.

Lemma lookup_of_take {A} (l l' : list A) (t : nat) :
  take (S t) l = take (S t) l' → l !! t = l' !! t.
Proof.
  intros Ht. rewrite <- (lookup_take_lt l (S t) t), <- (lookup_take_lt l' (S t) t) by lia.
  by rewrite Ht.
Qed.

End claims_causal.


Section claims_structure.
Context {R : Type} `{Scalar R}.

(** The scores of [MultiHeadAttention.forward] (line 138): entry [(n, i, j)]
    is the dot product of query [i] and key [j] of head [n], times
    [head_size ** -0.5]. *)
Lemma mha_scores_scale (m : MultiHeadAttention.t R) (q k : list (list (list R)))
    (n i j : nat) (qh kh : list (list R)) (qi kj : list R) :
  q !! n = Some qh → k !! n = Some kh → qh !! i = Some qi → kh !! j = Some kj →
  ∃ sh row,
    MultiHeadAttention.scores m q k !! n = Some sh ∧ sh !! i = Some row ∧
    row !! j = Some (rmul (dot qi kj) (rpow_neg_half (MultiHeadAttention.head_size m))).
Proof.
  intros Hq Hk Hqi Hkj.
  unfold MultiHeadAttention.scores, scale3, scale2, einsum_qk, matmul_nt.
  eexists _, _. split_and!.
  - rewrite list_lookup_fmap, lookup_zip_with, Hq. cbn. rewrite Hk. reflexivity.
  - rewrite list_lookup_fmap, list_lookup_fmap, Hqi. reflexivity.
  - by rewrite list_lookup_fmap, list_lookup_fmap, Hkj.
Qed.

(** C7. The scale of the scores.  The claim is that every forward pass of
    the attention engine scales the query-key dot products by
    [head_dim ** -0.5], the dimension of one head and not the channel
    width.  [MultiHeadAttention.forward] does ([mha_scores_scale]);
    [Head.forward] does not: line 88 scales by [C ** -0.5] where [C] is the
    last axis of the input [x] (line 82), the channel width, so that for an
    input of width [C] the score of query [i] and key [j] is their dot
    product times [C ** -0.5] whatever the head size is. *)
Theorem head_scores_scale (hd : Head.t R) (x : list (list R)) (C i j : nat)
    (xi xj : list R) :
  Forall (fun xt => length xt = C) x →
  x !! i = Some xi → x !! j = Some xj →
  ∃ row,
    Head.scores hd x !! i = Some row ∧
    row !! j =
      Some (rmul (dot (Head.query hd xi) (Head.key hd xj)) (rpow_neg_half C)).
Proof.
  intros HC Hi Hj. unfold Head.scores, scale2, matmul_nt.
  assert (length (default [] (head x)) = C) as ->.
  { destruct x as [|x0 x]; [done|]. by apply Forall_cons in HC as [? _]. }
  eexists. split.
  - rewrite list_lookup_fmap, list_lookup_fmap, list_lookup_fmap, Hi. reflexivity.
  - by rewrite list_lookup_fmap, list_lookup_fmap, list_lookup_fmap, Hj.
Qed.

Lemma block_forward_raises (b : Block.t R) (x : list (list R)) (use_cache : bool)
    (kvcache : option (MultiHeadAttention.kv R)) (e : exception) :
  MultiHeadAttention.forward (Block.sa_heads b) (map (Block.ln1 b) x) use_cache kvcache =
    Raise e →
  Block.forward b x use_cache kvcache = Raise e.
Proof. intros Ha. unfold Block.forward. by rewrite Ha. Qed.

(** C8. The block is pre-norm.  Let [a] be what attention returns on the
    normalised input [ln1(x)].  Then [Block.forward] returns, at every
    position [t] and channel [i], the sum [(x + a) + f] of the entries of
    the input [x], of the attention output [a] and of the feed-forward
    output [f], where the feed-forward layers read [ln2(x')] for the first
    residual sum [x' = x + a]: each sub-layer reads a normalised tensor,
    and the residual sums themselves are not normalised.  The cache
    returned is the one attention returns. *)
Theorem block_forward_pre_norm (b : Block.t R) (x : list (list R)) (use_cache : bool)
    (kvcache : option (MultiHeadAttention.kv R))
    (a : list (list R)) (new_kvcache : option (MultiHeadAttention.kv R))
    (t i : nat) (xt at' : list R) (xi ai fi : R) :
  MultiHeadAttention.forward (Block.sa_heads b) (map (Block.ln1 b) x) use_cache kvcache =
    Ok (a, new_kvcache) →
  x !! t = Some xt → a !! t = Some at' →
  xt !! i = Some xi → at' !! i = Some ai →
  FeedForward.lin2 (Block.ffwd b)
    (map rrelu (FeedForward.lin1 (Block.ffwd b)
                  (Block.ln2 b (zip_with radd xt at')))) !! i = Some fi →
  ∃ out row,
    Block.forward b x use_cache kvcache = Ok (out, new_kvcache) ∧
    out !! t = Some row ∧
    row !! i = Some (radd (radd xi ai) fi).
Proof.
  intros Ha Hxt Hat Hxi Hai Hfi. unfold Block.forward. rewrite Ha. cbn [bind fst snd].
  eexists _, _. split; [reflexivity|].
  unfold tadd, FeedForward.forward, dropout. split.
  - rewrite lookup_zip_with, lookup_zip_with, Hxt. cbn. rewrite Hat. cbn.
    rewrite list_lookup_fmap, list_lookup_fmap, lookup_zip_with, Hxt. cbn.
    rewrite Hat. cbn. reflexivity.
  - rewrite lookup_zip_with, lookup_zip_with, Hxi. cbn. rewrite Hai. cbn.
    by rewrite Hfi.
Qed.
End claims_structure.

Lemma block_forward_pre_norm_witness :
  ∃ out row,
    Block.forward (Block.init n_embd n_head Toy.block_weights) [[1; 2]]%Z false None =
      Ok (out, None) ∧
    out !! 0 = Some row ∧
    row !! 1 = Some (radd (radd 2 2) 4)%Z.
Proof.
  apply (block_forward_pre_norm (Block.init n_embd n_head Toy.block_weights)
           [[1; 2]]%Z false None [(1 :: 2 :: replicate 382 0)%Z] None
           0 1 [1; 2]%Z (1 :: 2 :: replicate 382 0)%Z 2%Z 2%Z 4%Z).
  - by vm_compute.
  - reflexivity.
  - reflexivity.
  - reflexivity.
  - reflexivity.
  - reflexivity.
Defined.

Lemma head_scores_scale_witness :
  ∃ row,
    Head.scores {| Head.head_size := n_embd `div` n_head;
                   Head.key := id; Head.query := id; Head.value := id |}
                [replicate n_embd 1%Z; replicate n_embd 2%Z] !! 1 = Some row ∧
    row !! 0 =
      Some (rmul (dot (id (replicate n_embd 2%Z)) (id (replicate n_embd 1%Z)))
                 (rpow_neg_half n_embd)).
Proof.
  apply (head_scores_scale
           {| Head.head_size := n_embd `div` n_head;
              Head.key := id; Head.query := id; Head.value := id |}
           [replicate n_embd 1%Z; replicate n_embd 2%Z] n_embd 1 0
           (replicate n_embd 2%Z) (replicate n_embd 1%Z)).
  - repeat constructor; apply length_replicate.
  - reflexivity.
  - reflexivity.
Defined.

Section claims_generate.
Context {R : Type} `{Scalar R} {G : Type} `{Sampler G R}.
Implicit Types (M : NanoGPTLanguageModel.t R) (idx : list nat) (g : G).

(** A run appends one token per iteration to the sequence it started with. *)
Lemma gen_run_appends M (n : nat) curr_idx idx cache g out g' :
  gen_run M n curr_idx idx cache g out g' →
  ∃ new, out = idx ++ new ∧ length new = n.
Proof.
  induction 1 as [curr_idx idx cache g
                 |n curr_idx idx cache g logits cache' row idx_next g1 out g2
                    _ _ _ _ (new & -> & Hnew)].
  - exists []. by rewrite app_nil_r.
  - exists (idx_next :: new). split; [by rewrite <- app_assoc|]. cbn. by rewrite Hnew.
Qed.

Lemma forward_Ok_in_vocab M idx targets (use_cache : bool) caches out :
  NanoGPTLanguageModel.forward M idx targets use_cache caches = Ok out → in_vocab M idx.
Proof.
  unfold NanoGPTLanguageModel.forward.
  destruct (Embedding_forward IndexError_token _ idx) as [emb|e] eqn:Htok; [|done].
  intros _. by eapply embedding_forward_inv.
Qed.

(** In a run of [generate] the caches stay within [block_size] time steps,
    because a step whose caches are full fails at the position table: a
    loop that completes [n] more steps from caches of [L] time steps, which
    leaves caches of [L + n], has [L + n ≤ block_size]. *)
Lemma generate_loop_cache_bounded M (n L tok : nat) idx cache g r :
  constructed M → cache_state M L cache →
  NanoGPTLanguageModel.generate_loop M (S n) [tok] idx cache g = Ok r →
  L + S n ≤ block_size.
Proof.
  intros HM. revert L tok idx cache g. induction n as [|n IH];
    intros L tok idx cache g Hc; cbn [NanoGPTLanguageModel.generate_loop];
    destruct (NanoGPTLanguageModel.forward M [tok] None true (Some cache))
      as [out|e] eqn:Hf; cbn [bind]; try done;
    pose proof (forward_Ok_in_vocab _ _ _ _ _ _ Hf) as Htok;
    (destruct (decide (L < block_size)) as [HL|HL];
     [|by rewrite (forward_step_overflow M L tok cache) in Hf by (done || lia)]).
  - intros _. lia.
  - destruct (forward_step_shape M L tok cache) as (h & cache' & Hf' & Hc');
      [done..|].
    rewrite Hf' in Hf. injection Hf as <-. cbn [last bind].
    destruct (multinomial g _) as [idx_next g1].
    intros Hrun. apply (IH (S L)) in Hrun; [lia|done].
Qed.

(** C9 (amended).  For a prompt of [T ≥ 1] token ids of the vocabulary and
    [N] new tokens with [T + N ≤ block_size + 1] (or [N = 0]), [generate]
    returns the prompt followed by [N] new tokens, a sequence of length
    [T + N], and got there by a run of [gen_run]: the first iteration calls
    [forward] on the prompt, every later one on the newest token alone,
    each with the caches of the one before, and each new token is the draw
    of the sampler from the softmax of the last row of logits. *)
Theorem generate_length_sampled M idx (max_new_tokens : nat) g :
  constructed M → lm_head_width M → sampler_in_range (G:=G) → in_vocab M idx →
  max_new_tokens = 0 ∨
    (1 ≤ length idx ∧ length idx + max_new_tokens ≤ block_size + 1) →
  ∃ out g' new,
    NanoGPTLanguageModel.generate M idx max_new_tokens g = Ok (out, g') ∧
    out = idx ++ new ∧ length new = max_new_tokens ∧
    length out = length idx + max_new_tokens ∧
    gen_run M max_new_tokens idx idx (replicate n_layer None) g out g'.
Proof.
  intros HM Hw Hs Hidx HN.
  destruct (generate_ok M max_new_tokens idx g) as (out & g' & Hgen & Hlen & _);
    [done..|].
  pose proof (generate_loop_gen_run M _ _ _ _ _ _ _ Hgen) as Hrun.
  destruct (gen_run_appends M _ _ _ _ _ _ _ Hrun) as (new & Hout & Hnew).
  by exists out, g', new.
Qed.

(** C10. Generation cannot go past the position table.  The position of
    the token fed to [forward] is the length of the caches, and the table
    has [block_size] rows: for a prompt of [T ≥ 1] token ids and [N ≥ 1]
    new tokens with [T + N ≥ block_size + 2], [generate] returns no
    sequence; it fails with an [IndexError] of the position embedding
    table, at position [block_size]. *)
Theorem generate_position_overflow M idx (max_new_tokens : nat) g :
  constructed M → lm_head_width M → sampler_in_range (G:=G) → in_vocab M idx →
  1 ≤ length idx → 1 ≤ max_new_tokens →
  block_size + 2 ≤ length idx + max_new_tokens →
  NanoGPTLanguageModel.generate M idx max_new_tokens g =
  Raise (IndexError_position block_size).
Proof. apply generate_overflow. Qed.
End claims_generate.

(** C9, as stated, fails: it promises a sequence of length [T + N] for
    every prompt and every [N].  A prompt of 3 tokens and 255 new tokens
    make [T + N = block_size + 2], and [generate] raises. *)
Lemma generate_length_counterexample :
  NanoGPTLanguageModel.generate Toy.model [0; 1; 2] 255 0 =
  Raise (IndexError_position block_size).
Proof.
  apply generate_overflow.
  - apply Toy_constructed.
  - apply Toy_lm_head_width.
  - apply Toy_sampler_in_range.
  - apply Toy_in_vocab. repeat constructor.
  - cbn. lia.
  - lia.
  - cbn. unfold block_size. lia.
Qed.

Lemma generate_length_sampled_witness :
  ∃ out g' new,
    NanoGPTLanguageModel.generate Toy.model [0; 1; 2] 1 0 = Ok (out, g') ∧
    out = [0; 1; 2] ++ new ∧ length new = 1 ∧
    length out = length [0; 1; 2] + 1 ∧
    gen_run Toy.model 1 [0; 1; 2] [0; 1; 2] (replicate n_layer None) 0 out g'.
Proof.
  apply (generate_length_sampled Toy.model [0; 1; 2] 1 0).
  - apply Toy_constructed.
  - apply Toy_lm_head_width.
  - apply Toy_sampler_in_range.
  - apply Toy_in_vocab. repeat constructor.
  - right. cbn. unfold block_size. lia.
Defined.

Lemma generate_position_overflow_witness :
  NanoGPTLanguageModel.generate Toy.model [0] 257 0 =
  Raise (IndexError_position block_size).
Proof.
  apply (generate_position_overflow Toy.model [0] 257 0).
  - apply Toy_constructed.
  - apply Toy_lm_head_width.
  - apply Toy_sampler_in_range.
  - apply Toy_in_vocab. repeat constructor.
  - cbn. lia.
  - lia.
  - cbn. unfold block_size. lia.
Defined.

(** * Further properties of the code *)

(** ** The vocabulary (lines 25-32) *)

Lemma mapM_app {A B} (f : A → result B) (l1 l2 : list A) :
  mapM f (l1 ++ l2) = (x <- mapM f l1 ;; y <- mapM f l2 ;; Ok (x ++ y)).
Proof.
  induction l1 as [|a l1 IH]; cbn.
  - by destruct (mapM f l2).
  - destruct (f a); cbn; [|done]. rewrite IH.
    destruct (mapM f l1); cbn; [|done]. by destruct (mapM f l2).
Qed.

Lemma StronglySorted_lookup_le {A} (R : relation A) (l : list A) (i j : nat) (x y : A) :
  StronglySorted R l → i < j → l !! i = Some x → l !! j = Some y → R x y.
Proof.
  intros Hl. revert i j. induction Hl as [|a l Hl IH Ha]; intros i j Hij Hi Hj; [done|].
  destruct j as [|j]; [lia|]. cbn in Hj. destruct i as [|i]; cbn in Hi.
  - simplify_eq. rewrite Forall_forall in Ha. apply Ha. by eapply list_elem_of_lookup_2.
  - apply (IH i j); [lia|done..].
Qed.

Section vocab_more.
Variable text : list N.

Lemma chars_sorted : StronglySorted N.le (Vocab.chars text).
Proof. unfold Vocab.chars. apply StronglySorted_merge_sort; apply _. Qed.

Lemma chars_lookup_lt (i j : nat) (c c' : N) :
  i < j → Vocab.chars text !! i = Some c → Vocab.chars text !! j = Some c' →
  (c < c')%N.
Proof.
  intros Hij Hi Hj.
  pose proof (StronglySorted_lookup_le _ _ _ _ _ _ chars_sorted Hij Hi Hj) as Hle.
  destruct (decide (c = c')) as [->|Hne]; [|lia].
  pose proof (NoDup_lookup _ _ _ _ (NoDup_chars text) Hi Hj). lia.
Qed.

Lemma decode_ids (l : list nat) :
  Forall (fun i => i < Vocab.vocab_size text) l →
  Vocab.decode text l = Ok (map (fun i => default 0%N (Vocab.chars text !! i)) l).
Proof.
  intros Hl. unfold Vocab.decode.
  rewrite (mapM_Ok _ (fun i => [default 0%N (Vocab.chars text !! i)])).
  - cbn. f_equal. induction l as [|i l IH]; [done|]. cbn. f_equal. apply IH.
    by apply Forall_cons in Hl as [_ ?].
  - intros i Hi. rewrite Forall_forall in Hl. apply Hl in Hi.
    rewrite itos_lookup. apply lookup_lt_is_Some_2 in Hi as [c ->]. done.
Qed.

Lemma decode_app (l1 l2 : list nat) :
  Vocab.decode text (l1 ++ l2) =
  (x <- Vocab.decode text l1 ;; y <- Vocab.decode text l2 ;; Ok (x ++ y)).
Proof.
  unfold Vocab.decode. rewrite mapM_app.
  destruct (mapM _ l1) as [a|]; cbn; [|done].
  destruct (mapM _ l2) as [b|]; cbn; [|done]. by rewrite concat_app.
Qed.

Lemma encode_Ok_inv (s : list N) (l : list nat) :
  Vocab.encode text s = Ok l →
  Forall2 (fun c i => Vocab.chars text !! i = Some c) s l.
Proof.
  unfold Vocab.encode. revert l. induction s as [|c s IH]; intros l; cbn.
  - intros [= <-]. constructor.
  - destruct (Vocab.stoi text !! c) as [i|] eqn:Hi; cbn; [|done].
    destruct (mapM _ s) as [l'|]; cbn; [|done]. intros [= <-].
    constructor; [by apply stoi_lookup|by apply IH].
Qed.

(** The round trip from ids: decoding a list of ids below [vocab_size] and
    encoding the string obtained gives the list back. *)
Theorem encode_decode_ids (l : list nat) :
  Forall (fun i => i < Vocab.vocab_size text) l →
  (s <- Vocab.decode text l ;; Vocab.encode text s) = Ok l.
Proof.
  intros Hl. rewrite decode_ids by done. cbn. unfold Vocab.encode.
  induction Hl as [|i l Hi Hl IH]; [done|]. cbn.
  apply lookup_lt_is_Some_2 in Hi as [c Hc]. rewrite Hc. cbn.
  apply stoi_lookup in Hc. rewrite Hc. cbn. by rewrite IH.
Qed.

(** [decode] fails on an id that is not in the vocabulary: it raises
    [KeyError] for the first id that is [vocab_size] or more, and returns
    no string. *)
Theorem decode_unknown_id_raises (l1 l2 : list nat) (i : nat) :
  Forall (fun j => j < Vocab.vocab_size text) l1 →
  Vocab.vocab_size text ≤ i →
  Vocab.decode text (l1 ++ i :: l2) = Raise (KeyError_itos i).
Proof.
  intros Hl Hi. unfold Vocab.decode.
  rewrite (mapM_Raise _ l1 l2 i (KeyError_itos i)); [done| |].
  - intros j Hj. rewrite Forall_forall in Hl. apply Hl in Hj.
    rewrite itos_lookup. apply lookup_lt_is_Some_2 in Hj as [c ->]. eauto.
  - rewrite itos_lookup. by rewrite (proj2 (lookup_ge_None _ _)).
Qed.

(** What [encode] returns is a valid input of the model: one id per
    character, each below [vocab_size], the number of rows of the token
    embedding table of [NanoGPTLanguageModel()]; and the id of a character
    is its rank among the distinct characters of the corpus. *)
Theorem encode_ids_in_range {R : Type} (W : NanoGPTLanguageModel.weights R)
    (s : list N) (l : list nat) :
  Vocab.encode text s = Ok l →
  length l = length s ∧
  Forall (fun i => i < Vocab.vocab_size text) l ∧
  in_vocab (NanoGPTLanguageModel.init (Vocab.vocab_size text) W) l ∧
  Forall2 (fun c i => Vocab.chars text !! i = Some c) s l.
Proof.
  intros He. pose proof (encode_Ok_inv s l He) as H2.
  assert (Forall (fun i => i < Vocab.vocab_size text) l) as Hl.
  { clear He. induction H2 as [|c i s l Hc _ IH]; constructor; [|done].
    by eapply lookup_lt_Some. }
  split_and!; [|done|done|done]. symmetry. by eapply Forall2_length.
Qed.

(** Ids follow the order of the characters: of two characters of the
    corpus, the one with the smaller code point has the smaller id. *)
Theorem stoi_order (c c' : N) (i i' : nat) :
  Vocab.stoi text !! c = Some i → Vocab.stoi text !! c' = Some i' →
  ((c < c')%N ↔ i < i').
Proof.
  rewrite !stoi_lookup. intros Hi Hi'. split.
  - intros Hc. destruct (Nat.lt_trichotomy i i') as [?|[->|Hlt]]; [done| |].
    + rewrite Hi in Hi'. injection Hi' as ->. lia.
    + pose proof (chars_lookup_lt _ _ _ _ Hlt Hi' Hi). lia.
  - intros Hlt. by eapply chars_lookup_lt.
Qed.
End vocab_more.

Lemma encode_decode_ids_witness :
  (s <- Vocab.decode [104; 105; 33]%N [2; 0; 1] ;; Vocab.encode [104; 105; 33]%N s) =
  Ok [2; 0; 1].
Proof.
  apply (encode_decode_ids [104; 105; 33]%N [2; 0; 1]).
  assert (Vocab.vocab_size [104; 105; 33]%N = 3) as -> by (by vm_compute).
  repeat constructor.
Defined.

Lemma decode_unknown_id_raises_witness :
  Vocab.decode [104; 105; 33]%N ([0; 1] ++ 3 :: [2]) = Raise (KeyError_itos 3).
Proof.
  apply (decode_unknown_id_raises [104; 105; 33]%N [0; 1] [2] 3).
  - assert (Vocab.vocab_size [104; 105; 33]%N = 3) as -> by (by vm_compute).
    repeat constructor.
  - by vm_compute.
Defined.

Lemma encode_ids_in_range_witness :
  length [1; 2; 0] = length [104; 105; 33]%N ∧
  Forall (fun i => i < Vocab.vocab_size [104; 105; 33]%N) [1; 2; 0] ∧
  in_vocab (NanoGPTLanguageModel.init (Vocab.vocab_size [104; 105; 33]%N) Toy.weights)
           [1; 2; 0] ∧
  Forall2 (fun c i => Vocab.chars [104; 105; 33]%N !! i = Some c) [104; 105; 33]%N [1; 2; 0].
Proof.
  apply (encode_ids_in_range [104; 105; 33]%N Toy.weights [104; 105; 33]%N [1; 2; 0]).
  by vm_compute.
Defined.

Lemma stoi_order_witness : (33 < 104)%N ↔ 0 < 1.
Proof.
  apply (stoi_order [104; 105; 33]%N 33%N 104%N 0 1); by vm_compute.
Defined.

(** ** One head and multi-head attention (lines 71-96 and 114-151) *)

Section head_more.
Context {R : Type} `{ScalarLaws R}.

(** [Head.forward] on a sequence that fits the mask: one output row per
    position, and the row at position [t] is the attention of the query
    at [t] over the keys and values of the positions [0..t], which are
    all it reads of the input. *)
Theorem head_forward_causal (hd : Head.t R) (x : list (list R)) (C : nat) :
  length x ≤ block_size → Forall (fun xt => length xt = C) x →
  ∃ out,
    Head.forward hd x = Ok out ∧ length out = length x ∧
    ∀ t xt, x !! t = Some xt →
      out !! t =
      Some (attend (rpow_neg_half C) (Head.head_size hd) (Head.query hd xt)
              (map (Head.key hd) (take (S t) x))
              (map (Head.value hd) (take (S t) x))).
Proof.
  intros Hx HC. unfold Head.forward, masked_fill2.
  rewrite tril_broadcasts_full by done. cbn [bind]. unfold dropout, Head.scores.
  assert (x ≠ [] → length (default [] (head x)) = C) as HC'.
  { destruct x as [|x0 x]; [done|]. intros _. by apply Forall_cons in HC as [? _]. }
  rewrite (attention_head_causal (length x)) by (by rewrite ?length_map).
  eexists. split; [reflexivity|]. unfold causal_head.
  split; [by rewrite length_imap, length_map|].
  intros t xt Ht. rewrite list_lookup_imap, list_lookup_fmap, Ht. cbn.
  rewrite HC' by (by intros ->). by rewrite <- !fmap_take.
Qed.
End head_more.

Section attention_more.
Context {R : Type} `{Scalar R}.

(** [Head.forward] rejects a sequence longer than the mask: the mask
    [tril[:T, :T]] has [block_size] rows and does not broadcast against
    the [T] by [T] scores. *)
Theorem head_forward_long (hd : Head.t R) (x : list (list R)) :
  block_size < length x → Head.forward hd x = Raise RuntimeError_mask_shape.
Proof.
  intros Hx. unfold Head.forward, masked_fill2. by rewrite tril_broadcasts_long.
Qed.

(** Without a cache, [MultiHeadAttention.forward] rejects a sequence longer
    than [block_size], whether or not a cache is asked for, and so does
    the block around it. *)
Theorem mha_forward_no_cache_long (b : Block.t R) (x : list (list R))
    (use_cache : bool) :
  0 < MultiHeadAttention.num_heads (Block.sa_heads b) → block_size < length x →
  MultiHeadAttention.forward (Block.sa_heads b) x use_cache None =
    Raise RuntimeError_mask_shape ∧
  Block.forward b x use_cache None = Raise RuntimeError_mask_shape.
Proof.
  intros Hn Hx. split; [by apply mha_forward_long|by apply block_forward_long].
Qed.

Lemma dim_time_cat_slice (m : MultiHeadAttention.t R) (f : list R → list R)
    (n : nat) (xs x : list (list R)) :
  0 < MultiHeadAttention.num_heads m →
  dim_time (cat_time (slice_last n (MultiHeadAttention.heads m f xs))
                     (MultiHeadAttention.heads m f x)) =
  length xs `min` n + length x.
Proof.
  intros Hn. rewrite !heads_eq. unfold dim_time, cat_time, slice_last.
  destruct (MultiHeadAttention.num_heads m) as [|k]; [lia|]. cbn.
  rewrite length_app, length_drop, !length_map. lia.
Qed.

(** The cache takes one position at a time: a pass over two or more new
    positions on top of a cache that is not empty fails, because the mask
    [tril[:, :, :T, :T]] does not broadcast against the [T] by [K + T]
    scores. *)
Theorem mha_chunk_with_cache_raises (m : MultiHeadAttention.t R)
    (xs x : list (list R)) :
  0 < MultiHeadAttention.num_heads m → 1 ≤ length xs → 2 ≤ length x →
  MultiHeadAttention.forward m x true (Some (mha_kv m xs)) =
  Raise RuntimeError_mask_shape.
Proof.
  intros Hn Hxs Hx. unfold MultiHeadAttention.forward, mha_kv.
  cbn [MultiHeadAttention.extend]. rewrite dim_time_cat_slice by done.
  unfold masked_fill3, tril_broadcasts, broadcastable.
  replace (bool_decide (length x `min` block_size =
                        length xs `min` (block_size + 1) + length x))
    with false by (symmetry; apply bool_decide_eq_false_2; unfold block_size; lia).
  replace (bool_decide (length x `min` block_size = 1))
    with false by (symmetry; apply bool_decide_eq_false_2; unfold block_size; lia).
  replace (bool_decide (length xs `min` (block_size + 1) + length x = 1))
    with false by (symmetry; apply bool_decide_eq_false_2; lia).
  cbn. by rewrite andb_false_r.
Qed.
End attention_more.

Section attention_cache.
Context {R : Type} `{ScalarLaws R}.

(** Attention with the cache computes what attention without it computes:
    a pass over [xs] that fills the cache, then a pass over one more
    position [xt] with that cache, give the rows and the cache of one pass
    over [xs ++ [xt]]. *)
Theorem mha_prefill_step_full (m : MultiHeadAttention.t R)
    (xs : list (list R)) (xt : list R) :
  0 < MultiHeadAttention.num_heads m → length xs + 1 ≤ block_size →
  ∃ out row c c',
    MultiHeadAttention.forward m xs true None = Ok (out, Some c) ∧
    MultiHeadAttention.forward m [xt] true (Some c) = Ok ([row], Some c') ∧
    MultiHeadAttention.forward m (xs ++ [xt]) true None = Ok (out ++ [row], Some c').
Proof.
  intros Hn Hxs.
  exists (mha_causal m xs), (mha_row m (xs ++ [xt]) xt),
         (mha_kv m xs), (mha_kv m (xs ++ [xt])).
  rewrite !mha_forward_full by (rewrite ?length_app; cbn; lia).
  rewrite mha_forward_step by lia. split_and!; [done|done|].
  f_equal. f_equal. apply causal_snoc.
Qed.
End attention_cache.

Lemma head_forward_causal_witness :
  ∃ out,
    Head.forward {| Head.head_size := 2; Head.key := id; Head.query := id;
                    Head.value := id |} [[1; 2]; [3; 4]]%Z = Ok out ∧
    length out = length [[1; 2]; [3; 4]]%Z ∧
    ∀ t xt, [[1; 2]; [3; 4]]%Z !! t = Some xt →
      out !! t =
      Some (attend (rpow_neg_half 2) 2 (id xt)
              (map id (take (S t) [[1; 2]; [3; 4]]%Z))
              (map id (take (S t) [[1; 2]; [3; 4]]%Z))).
Proof.
  apply (head_forward_causal
           {| Head.head_size := 2; Head.key := id; Head.query := id; Head.value := id |}
           [[1; 2]; [3; 4]]%Z 2).
  - cbn. unfold block_size. lia.
  - repeat constructor.
Defined.

Lemma head_forward_long_witness :
  Head.forward {| Head.head_size := 2; Head.key := id; Head.query := id;
                  Head.value := id |} (replicate 257 [1; 2]%Z) =
  Raise RuntimeError_mask_shape.
Proof.
  apply (head_forward_long
           {| Head.head_size := 2; Head.key := id; Head.query := id; Head.value := id |}
           (replicate 257 [1; 2]%Z)).
  rewrite length_replicate. unfold block_size. lia.
Defined.

Lemma mha_forward_no_cache_long_witness :
  MultiHeadAttention.forward
    (Block.sa_heads (Block.init n_embd n_head Toy.block_weights))
    (replicate 257 [1%Z]) true None = Raise RuntimeError_mask_shape ∧
  Block.forward (Block.init n_embd n_head Toy.block_weights)
    (replicate 257 [1%Z]) true None = Raise RuntimeError_mask_shape.
Proof.
  apply (mha_forward_no_cache_long (Block.init n_embd n_head Toy.block_weights)
           (replicate 257 [1%Z]) true).
  - cbn. unfold n_head. lia.
  - rewrite length_replicate. unfold block_size. lia.
Defined.

Lemma mha_chunk_with_cache_raises_witness :
  MultiHeadAttention.forward
    (Block.sa_heads (Block.init n_embd n_head Toy.block_weights))
    [[1%Z]; [2%Z]] true
    (Some (mha_kv (Block.sa_heads (Block.init n_embd n_head Toy.block_weights))
                  [[5%Z]])) =
  Raise RuntimeError_mask_shape.
Proof.
  apply (mha_chunk_with_cache_raises
           (Block.sa_heads (Block.init n_embd n_head Toy.block_weights))
           [[5%Z]] [[1%Z]; [2%Z]]).
  - cbn. unfold n_head. lia.
  - cbn. lia.
  - cbn. lia.
Defined.

Lemma mha_prefill_step_full_witness :
  ∃ out row c c',
    MultiHeadAttention.forward
      (Block.sa_heads (Block.init n_embd n_head Toy.block_weights))
      [[1%Z]; [2%Z]] true None = Ok (out, Some c) ∧
    MultiHeadAttention.forward
      (Block.sa_heads (Block.init n_embd n_head Toy.block_weights))
      [[3%Z]] true (Some c) = Ok ([row], Some c') ∧
    MultiHeadAttention.forward
      (Block.sa_heads (Block.init n_embd n_head Toy.block_weights))
      ([[1%Z]; [2%Z]] ++ [[3%Z]]) true None = Ok (out ++ [row], Some c').
Proof.
  apply (mha_prefill_step_full
           (Block.sa_heads (Block.init n_embd n_head Toy.block_weights))
           [[1%Z]; [2%Z]] [3%Z]).
  - cbn. unfold n_head. lia.
  - cbn. unfold block_size. lia.
Defined.

(** ** The forward pass of the model (lines 212-249) *)

Section forward_more.
Context {R : Type} `{Scalar R}.
Implicit Types (M : NanoGPTLanguageModel.t R) (s idx : list nat).

(** The token lookup comes first: a token id that is not a row of the
    token embedding table makes [forward] raise [IndexError] for it,
    whatever the targets, the flag and the caches are. *)
Theorem forward_token_out_of_vocab M (l1 l2 : list nat) (i : nat)
    (targets : option (list nat)) (use_cache : bool)
    (blocks_kvcache : option (list (option (MultiHeadAttention.kv R)))) :
  in_vocab M l1 →
  num_embeddings (NanoGPTLanguageModel.token_embedding_table M) ≤ i →
  NanoGPTLanguageModel.forward M (l1 ++ i :: l2) targets use_cache blocks_kvcache =
  Raise (IndexError_token i).
Proof.
  intros Hl Hi. apply forward_token_error. by apply embedding_forward_Raise.
Qed.

(** The position lookup comes second, before the blocks and before the
    caches are read: when the history of the caches plus the new tokens
    do not fit the [block_size] rows of the position table, [forward]
    raises [IndexError] at the first position that is not a row (there
    is at least one new token). *)
Theorem forward_position_overflow M idx (targets : option (list nat))
    (use_cache : bool)
    (blocks_kvcache : option (list (option (MultiHeadAttention.kv R)))) :
  num_embeddings (NanoGPTLanguageModel.position_embedding_table M) = block_size →
  in_vocab M idx → 1 ≤ length idx →
  block_size < NanoGPTLanguageModel.history_length blocks_kvcache + length idx →
  NanoGPTLanguageModel.forward M idx targets use_cache blocks_kvcache =
  Raise (IndexError_position
           (NanoGPTLanguageModel.history_length blocks_kvcache `max` block_size)).
Proof.
  intros Hp Hidx Hne Hover. unfold NanoGPTLanguageModel.forward.
  rewrite embedding_forward_Ok by done. cbn [bind].
  set (L := NanoGPTLanguageModel.history_length blocks_kvcache) in *.
  remember (block_size - L) as j eqn:Hj.
  replace (length idx) with (j + S (length idx - S j)) by lia.
  rewrite seq_app, map_app. cbn [seq map].
  rewrite embedding_forward_Raise.
  - cbn [bind]. do 2 f_equal. lia.
  - apply Forall_forall. intros i Hi. apply list_elem_of_fmap in Hi as (k & -> & Hk).
    apply elem_of_seq in Hk. lia.
  - lia.
Qed.
End forward_more.

Section forward_laws.
Context {R : Type} `{ScalarLaws R}.
Implicit Types (M : NanoGPTLanguageModel.t R) (s idx : list nat).

Lemma zip_replicate_take {A B} (l : list A) (k : nat) (y : B) :
  zip l (replicate k y) = zip (take k l) (replicate (length (take k l)) y).
Proof.
  revert k. induction l as [|a l IH]; intros [|k]; cbn; [done..|].
  f_equal. apply IH.
Qed.

(** [zip(self.blocks, blocks_kvcache)] stops at the shorter of the two:
    with a list of [k] empty caches only the first [k] blocks run, and
    with the empty list none does, so that the logits are those of the
    embeddings alone.  No exception tells a short list from a full one. *)
Theorem forward_runs_zipped_blocks M idx (k : nat) :
  constructed M → in_vocab M idx → length idx ≤ block_size →
  NanoGPTLanguageModel.forward M idx None false (Some (replicate k None)) =
  Ok (NanoGPTLanguageModel.Out2
        (map (NanoGPTLanguageModel.lm_head M)
           (map (NanoGPTLanguageModel.ln_f M)
              (hidden (take k (NanoGPTLanguageModel.blocks M)) (embed M idx))))
        None).
Proof.
  intros HM Hv Hl. unfold NanoGPTLanguageModel.forward.
  rewrite embedding_forward_Ok by done. cbn [bind].
  assert (NanoGPTLanguageModel.history_length (R:=R) (Some (replicate k None)) = 0)
    as -> by (by destruct k).
  pose proof HM as (Hn & _ & Hp).
  rewrite embedding_forward_Ok.
  2:{ apply Forall_forall. intros i Hi. apply list_elem_of_fmap in Hi as (j & -> & Hj).
      apply elem_of_seq in Hj. lia. }
  cbn [bind].
  assert (map (fun i => i + 0) (seq 0 (length idx)) = seq 0 (length idx)) as ->.
  { rewrite <- (map_id (seq 0 (length idx))) at 2. apply map_ext. intros; lia. }
  fold (embed M idx). rewrite zip_replicate_take.
  rewrite run_blocks_full.
  - done.
  - apply Forall_take. by apply constructed_heads.
  - by rewrite embed_length.
Qed.

(** The cache at the level of the model: a pass over [s] that fills the
    caches, then a pass over the single token [tok] with them, return the
    rows of logits and the caches that one pass over [s ++ [tok]]
    returns. *)
Theorem forward_cached_step_matches_full M s (tok : nat) :
  constructed M → in_vocab M (s ++ [tok]) → length s + 1 ≤ block_size →
  ∃ logits row caches caches',
    NanoGPTLanguageModel.forward M s None true (Some (replicate n_layer None)) =
      Ok (NanoGPTLanguageModel.Out3 logits None caches) ∧
    NanoGPTLanguageModel.forward M [tok] None true (Some caches) =
      Ok (NanoGPTLanguageModel.Out3 [row] None caches') ∧
    NanoGPTLanguageModel.forward M (s ++ [tok]) None true
      (Some (replicate n_layer None)) =
      Ok (NanoGPTLanguageModel.Out3 (logits ++ [row]) None caches').
Proof.
  intros HM Hv Hl. apply Forall_app in Hv as [Hs Htok].
  destruct (forward_step M s tok) as (row & Hstep & Hrow); [done|done|lia|].
  exists (logits_causal M s), row, (caches_causal M s), (caches_causal M (s ++ [tok])).
  rewrite !forward_full;
    [|done|by apply Forall_app|rewrite length_app; cbn; lia|done|done|lia].
  by rewrite Hrow.
Qed.

Lemma cross_entropy_Ok (logits : list (list R)) (targets : list nat) (v : nat) :
  length logits = length targets →
  Forall (fun row => length row = v) logits → Forall (fun t => t < v) targets →
  cross_entropy logits targets =
  Ok (rdiv (rsum (zip_with (fun row t => rneg (rlog (default rzero (softmax row !! t))))
                           logits targets))
           (rof_nat (length targets))).
Proof.
  intros Hlen Hrows Ht. unfold cross_entropy.
  rewrite bool_decide_eq_true_2 by done.
  rewrite (mapM_Ok _ (fun p => rneg (rlog (default rzero (softmax p.1 !! p.2))))).
  - cbn [bind]. do 3 f_equal. clear.
    revert targets. induction logits as [|row logits IH]; intros [|t targets]; cbn;
      [done..|]. f_equal. apply IH.
  - intros [row t] Hp. apply elem_of_zip_l in Hp as Hrow. apply elem_of_zip_r in Hp as Htt.
    cbn in *. rewrite Forall_forall in Hrows. rewrite Forall_forall in Ht.
    destruct (softmax row !! t) as [pr|] eqn:E; [done|].
    apply lookup_ge_None in E. rewrite softmax_length, (Hrows row Hrow) in E.
    specialize (Ht t Htt). lia.
Qed.

(** Training mode with the caches given as a list of [n_layer] empty
    caches: for targets that are token ids, one per input token, [forward]
    returns one row of [vocab_size] logits per position and the mean over
    the positions of minus the logarithm of the softmax probability of the
    target. *)
Theorem forward_training_loss M idx (targets : list nat) :
  constructed M → lm_head_width M → in_vocab M idx → in_vocab M targets →
  length targets = length idx → length idx ≤ block_size →
  ∃ logits,
    NanoGPTLanguageModel.forward M idx (Some targets) false
      (Some (replicate n_layer None)) =
      Ok (NanoGPTLanguageModel.Out2 logits
            (Some (rdiv (rsum (zip_with
                                 (fun row t =>
                                    rneg (rlog (default rzero (softmax row !! t))))
                                 logits targets))
                        (rof_nat (length targets))))) ∧
    length logits = length idx ∧
    Forall (fun row => length row =
              num_embeddings (NanoGPTLanguageModel.token_embedding_table M)) logits.
Proof.
  intros HM Hw Hv Ht Hlen Hl.
  pose proof (forward_full M idx false HM Hv Hl) as Hf.
  exists (logits_causal M idx).
  assert (Forall (fun row => length row =
            num_embeddings (NanoGPTLanguageModel.token_embedding_table M))
            (logits_causal M idx)) as Hrows.
  { unfold logits_causal. apply Forall_forall. intros row Hrow.
    apply list_elem_of_fmap in Hrow as (h & -> & _). apply Hw. }
  split_and!; [|apply logits_causal_length|done].
  unfold NanoGPTLanguageModel.forward in *.
  destruct (Embedding_forward IndexError_token _ _); cbn [bind] in *; [|done].
  destruct (Embedding_forward IndexError_position _ _); cbn [bind] in *; [|done].
  destruct (NanoGPTLanguageModel.run_blocks _ _ _ _) as [r|]; cbn [bind] in *; [|done].
  injection Hf as ->.
  rewrite bool_decide_eq_true_2 by (by rewrite logits_causal_length).
  erewrite cross_entropy_Ok; [done| |done|done].
  by rewrite logits_causal_length.
Qed.
End forward_laws.

Lemma forward_token_out_of_vocab_witness :
  NanoGPTLanguageModel.forward Toy.model ([0; 1] ++ 3 :: [2]) (Some [1; 2; 0; 1]) false None =
  Raise (IndexError_token 3).
Proof.
  apply (forward_token_out_of_vocab Toy.model [0; 1] [2] 3 (Some [1; 2; 0; 1]) false None).
  - apply Toy_in_vocab. repeat constructor.
  - cbn. rewrite Toy_vocab_size. lia.
Defined.

Lemma forward_position_overflow_witness :
  NanoGPTLanguageModel.forward Toy.model (replicate 257 0) None false None =
  Raise (IndexError_position
           (NanoGPTLanguageModel.history_length (R:=Z) None `max` block_size)).
Proof.
  apply (forward_position_overflow Toy.model (replicate 257 0) None false None).
  - reflexivity.
  - apply Toy_in_vocab. apply Forall_replicate. lia.
  - rewrite length_replicate. lia.
  - rewrite length_replicate. cbn. unfold block_size. lia.
Defined.

Lemma forward_runs_zipped_blocks_witness :
  NanoGPTLanguageModel.forward Toy.model [0; 1; 2] None false (Some (replicate 0 None)) =
  Ok (NanoGPTLanguageModel.Out2
        (map (NanoGPTLanguageModel.lm_head Toy.model)
           (map (NanoGPTLanguageModel.ln_f Toy.model)
              (hidden (take 0 (NanoGPTLanguageModel.blocks Toy.model))
                      (embed Toy.model [0; 1; 2]))))
        None).
Proof.
  apply (forward_runs_zipped_blocks Toy.model [0; 1; 2] 0).
  - apply Toy_constructed.
  - apply Toy_in_vocab. repeat constructor.
  - cbn. unfold block_size. lia.
Defined.

Lemma forward_cached_step_matches_full_witness :
  ∃ logits row caches caches',
    NanoGPTLanguageModel.forward Toy.model [0; 1] None true
      (Some (replicate n_layer None)) =
      Ok (NanoGPTLanguageModel.Out3 logits None caches) ∧
    NanoGPTLanguageModel.forward Toy.model [2] None true (Some caches) =
      Ok (NanoGPTLanguageModel.Out3 [row] None caches') ∧
    NanoGPTLanguageModel.forward Toy.model ([0; 1] ++ [2]) None true
      (Some (replicate n_layer None)) =
      Ok (NanoGPTLanguageModel.Out3 (logits ++ [row]) None caches').
Proof.
  apply (forward_cached_step_matches_full Toy.model [0; 1] 2).
  - apply Toy_constructed.
  - apply Toy_in_vocab. repeat constructor.
  - cbn. unfold block_size. lia.
Defined.

Lemma forward_training_loss_witness :
  ∃ logits,
    NanoGPTLanguageModel.forward Toy.model [0; 1; 2] (Some [1; 2; 0]) false
      (Some (replicate n_layer None)) =
      Ok (NanoGPTLanguageModel.Out2 logits
            (Some (rdiv (rsum (zip_with
                                 (fun row t =>
                                    rneg (rlog (default rzero (softmax row !! t))))
                                 logits [1; 2; 0]))
                        (rof_nat (length [1; 2; 0]))))) ∧
    length logits = length [0; 1; 2] ∧
    Forall (fun row => length row =
              num_embeddings (NanoGPTLanguageModel.token_embedding_table Toy.model)) logits.
Proof.
  apply (forward_training_loss Toy.model [0; 1; 2] [1; 2; 0]).
  - apply Toy_constructed.
  - apply Toy_lm_head_width.
  - apply Toy_in_vocab. repeat constructor.
  - apply Toy_in_vocab. repeat constructor.
  - reflexivity.
  - cbn. unfold block_size. lia.
Defined.

(** ** Generation and the sampling script (lines 251-272 and 300-302) *)

Section generate_more.
Context {R : Type} `{Scalar R} {G : Type} `{Sampler G R}.
Implicit Types (M : NanoGPTLanguageModel.t R) (idx : list nat) (g : G).

Lemma generate_empty_prompt M (n : nat) g :
  constructed M →
  NanoGPTLanguageModel.generate M [] (S n) g = Raise IndexError_last.
Proof.
  intros HM. unfold NanoGPTLanguageModel.generate.
  cbn [NanoGPTLanguageModel.generate_loop].
  destruct (forward_prompt_shape M []) as (hs & caches & -> & Hhs & _);
    [done|constructor|cbn; lia|].
  destruct hs; [done|]. cbn in Hhs. lia.
Qed.

(** An empty prompt cannot be continued: the logits have no last
    position, and [generate] raises [IndexError] at [logits[:, -1, :]]. *)
Theorem generate_empty_prompt_raises M (max_new_tokens : nat) g :
  constructed M → 1 ≤ max_new_tokens →
  NanoGPTLanguageModel.generate M [] max_new_tokens g = Raise IndexError_last.
Proof.
  intros HM HN. destruct max_new_tokens as [|n]; [lia|].
  by apply generate_empty_prompt.
Qed.

(** When [generate] returns, it returns [T + N] tokens, and either no
    token was asked for or the prompt was a non-empty list of token ids
    with [T + N ≤ block_size + 1]: the caches never held more than
    [block_size] positions. *)
Theorem generate_returns_within_context M idx (max_new_tokens : nat) g out g' :
  constructed M →
  NanoGPTLanguageModel.generate M idx max_new_tokens g = Ok (out, g') →
  length out = length idx + max_new_tokens ∧
  (max_new_tokens = 0 ∨
   (1 ≤ length idx ∧ length idx + max_new_tokens ≤ block_size + 1 ∧ in_vocab M idx)).
Proof.
  intros HM Hgen. split.
  { apply generate_loop_gen_run, gen_run_appends in Hgen as (new & -> & Hnew).
    rewrite length_app. lia. }
  destruct max_new_tokens as [|n]; [by left|]. right.
  destruct (decide (length idx = 0)) as [Hnil|Hne].
  { apply nil_length_inv in Hnil as ->. by rewrite generate_empty_prompt in Hgen. }
  assert (in_vocab M idx) as Hv.
  { revert Hgen. unfold NanoGPTLanguageModel.generate.
    cbn [NanoGPTLanguageModel.generate_loop].
    destruct (NanoGPTLanguageModel.forward M idx None true _) as [o|] eqn:Hf; [|done].
    intros _. by eapply forward_Ok_in_vocab. }
  destruct (decide (length idx ≤ block_size)) as [Hl|Hl].
  2:{ revert Hgen. unfold NanoGPTLanguageModel.generate.
      cbn [NanoGPTLanguageModel.generate_loop].
      by rewrite forward_prompt_overflow by (done || lia). }
  split_and!; [lia| |done].
  destruct (generate_first_step M n idx g) as (h & cache & Hc & Hstep); [done|done|lia|].
  rewrite Hstep in Hgen. cbn zeta in Hgen. destruct n as [|n]; [lia|].
  apply (generate_loop_cache_bounded M n (length idx)) in Hgen; [lia|done|done].
Qed.
End generate_more.

Section script_facts.
Context {R : Type} `{Scalar R} {G : Type} `{Sampler G R}.

(** The sampling script on a corpus that has a newline: the prompt is one
    token and [block_size] tokens are asked for, which is the most that
    [generate] can give; every sampled token is an id of the vocabulary,
    so that [decode] does not fail, and the script prints a newline
    followed by [block_size] characters of the corpus. *)
Theorem sample_text_ok (text : list N) (W : NanoGPTLanguageModel.weights R) (g : G) :
  10%N ∈ text →
  lm_head_width (NanoGPTLanguageModel.init (Vocab.vocab_size text) W) →
  sampler_in_range (G:=G) →
  ∃ s g',
    sample_text text (NanoGPTLanguageModel.init (Vocab.vocab_size text) W) g =
      Ok (s, g') ∧
    length s = block_size + 1 ∧ head s = Some 10%N ∧ Forall (fun c => c ∈ text) s.
Proof.
  intros Hnl Hw Hs. set (M := NanoGPTLanguageModel.init (Vocab.vocab_size text) W) in *.
  apply stoi_is_Some in Hnl as [i Hi]. unfold sample_text, Vocab.encode.
  cbn [mapM]. rewrite Hi. cbn [bind].
  assert (i < Vocab.vocab_size text) as Hlt by (by eapply stoi_lt).
  assert (in_vocab M [i]) as Hv by (by repeat constructor).
  destruct (generate_ok M block_size [i] g) as (out & g' & Hgen & Hlen & Hout);
    [apply constructed_init|done|done|done|right; cbn [length]; lia|].
  rewrite Hgen. cbn [bind fst snd].
  apply generate_loop_gen_run, gen_run_appends in Hgen as (new & -> & Hnew).
  rewrite decode_ids by done. cbn [bind]. eexists _, _. split; [reflexivity|].
  split_and!.
  - rewrite length_map, Hlen. cbn [length]. lia.
  - cbn. apply stoi_lookup in Hi. by rewrite Hi.
  - apply Forall_forall. intros c Hc. apply list_elem_of_fmap in Hc as (j & -> & Hj).
    unfold in_vocab in Hout. rewrite Forall_forall in Hout. apply Hout in Hj.
    cbn in Hj. apply lookup_lt_is_Some_2 in Hj as [c Hc]. rewrite Hc. cbn.
    apply elem_of_chars. by eapply list_elem_of_lookup_2.
Qed.
End script_facts.

Lemma generate_empty_prompt_raises_witness :
  NanoGPTLanguageModel.generate Toy.model [] 3 0 = Raise IndexError_last.
Proof.
  apply (generate_empty_prompt_raises Toy.model 3 0).
  - apply Toy_constructed.
  - lia.
Defined.

Lemma generate_returns_within_context_witness :
  length [0; 0] = length [0] + 1 ∧
  (1 = 0 ∨
   (1 ≤ length [0] ∧ length [0] + 1 ≤ block_size + 1 ∧ in_vocab Toy.model [0])).
Proof.
  apply (generate_returns_within_context Toy.model [0] 1 0 [0; 0] 1).
  - apply Toy_constructed.
  - by vm_compute.
Defined.

Lemma sample_text_ok_witness :
  ∃ s g',
    sample_text ToyScript.text
      (NanoGPTLanguageModel.init (Vocab.vocab_size ToyScript.text) ToyScript.weights) 0 =
      Ok (s, g') ∧
    length s = block_size + 1 ∧ head s = Some 10%N ∧
    Forall (fun c => c ∈ ToyScript.text) s.
Proof.
  apply (sample_text_ok ToyScript.text ToyScript.weights 0).
  - unfold ToyScript.text. rewrite !elem_of_cons. auto.
  - intros v. cbn. by rewrite length_replicate.
  - apply Toy_sampler_in_range.
Defined.

(** ** Batches (lines 38-44) *)

Section batch_facts.
Context {G : Type} `{Randint G}.

Lemma stack_Ok (rows : list (list nat)) (n : nat) :
  rows ≠ [] → Forall (fun r => length r = n) rows → stack rows = inr rows.
Proof.
  intros Hne Hrows. destruct rows as [|r rest]; [done|]. cbn.
  apply Forall_cons in Hrows as [Hr Hrest].
  replace (forallb _ rest) with true; [done|]. symmetry.
  apply forallb_forall. intros r' Hr'. apply bool_decide_eq_true_2.
  rewrite Forall_forall in Hrest. rewrite Hr. apply Hrest. by apply list_elem_of_In.
Qed.

Lemma window_length (data : list nat) (i : nat) :
  i + block_size ≤ length data → length (take block_size (drop i data)) = block_size.
Proof. intros Hi. rewrite length_take, length_drop. lia. Qed.

Lemma window_lookup (data : list nat) (i t : nat) :
  t < block_size → take block_size (drop i data) !! t = data !! (i + t).
Proof. intros Ht. by rewrite lookup_take_lt, lookup_drop by done. Qed.

(** A batch, when the data of the split is longer than [block_size]: there
    are [batch_size] input rows and as many target rows, all of
    [block_size] tokens; each pair of rows is a window of the data and
    the same window moved one token on, so that the target at a position
    is the input at the next one. *)
Theorem get_batch_windows (train_data val_data : list nat) (split : list N) (g : G) :
  let data :=
    if bool_decide (split = [116; 114; 97; 105; 110]%N)
    then train_data else val_data in
  randint_in_range → block_size < length data →
  ∃ x y g',
    get_batch train_data val_data split g = inr (x, y, g') ∧
    length x = batch_size ∧ length y = batch_size ∧
    ∀ b xb yb, x !! b = Some xb → y !! b = Some yb →
      length xb = block_size ∧ length yb = block_size ∧
      (∃ i, i + block_size < length data ∧
            ∀ t, t < block_size →
              xb !! t = data !! (i + t) ∧ yb !! t = data !! (i + t + 1)) ∧
      (∀ t, t + 1 < block_size → yb !! t = xb !! (t + 1)).
Proof.
  intros data Hr Hlen. unfold get_batch. fold data.
  rewrite bool_decide_eq_false_2 by lia.
  destruct (Hr g (length data - block_size) batch_size) as [Hn Hix]; [lia|].
  set (ix := (randint g (length data - block_size) batch_size).1) in *.
  assert (ix ≠ []) as Hne by (intros E; rewrite E in Hn; done).
  rewrite (stack_Ok _ block_size).
  2:{ by destruct ix. }
  2:{ apply Forall_forall. intros r Hr'. apply list_elem_of_fmap in Hr' as (i & -> & Hi).
      rewrite Forall_forall in Hix. apply Hix in Hi. apply window_length. lia. }
  rewrite (stack_Ok _ block_size).
  2:{ by destruct ix. }
  2:{ apply Forall_forall. intros r Hr'. apply list_elem_of_fmap in Hr' as (i & -> & Hi).
      rewrite Forall_forall in Hix. apply Hix in Hi. apply window_length. lia. }
  eexists _, _, _. split; [reflexivity|]. rewrite !length_map.
  split_and!; [done..|].
  intros b xb yb Hxb Hyb. rewrite list_lookup_fmap in Hxb, Hyb.
  destruct (ix !! b) as [i|] eqn:Hi; [|done]. cbn in Hxb, Hyb.
  injection Hxb as <-. injection Hyb as <-.
  rewrite Forall_forall in Hix.
  pose proof (Hix i (list_elem_of_lookup_2 _ _ _ Hi)) as Hlt.
  split_and!.
  - apply window_length. lia.
  - apply window_length. lia.
  - exists i. split; [lia|]. intros t Ht. rewrite !window_lookup by done.
    split; [done|]. f_equal. lia.
  - intros t Ht. rewrite !window_lookup by lia. f_equal. lia.
Qed.
End batch_facts.

#[local] Existing Instance ToyScript.zero_offsets.

Lemma ToyScript_randint_in_range : randint_in_range (G:=nat).
Proof.
  intros g high n Hh. cbn. split; [apply length_replicate|].
  by apply Forall_replicate.
Qed.

Lemma get_batch_windows_witness :
  ∃ x y g',
    get_batch ToyScript.data [5; 6] [116; 114; 97; 105; 110]%N 0 = inr (x, y, g') ∧
    length x = batch_size ∧ length y = batch_size ∧
    ∀ b xb yb, x !! b = Some xb → y !! b = Some yb →
      length xb = block_size ∧ length yb = block_size ∧
      (∃ i, i + block_size <
              length (if bool_decide ([116; 114; 97; 105; 110]%N =
                                      [116; 114; 97; 105; 110]%N)
                      then ToyScript.data else [5; 6]) ∧
            ∀ t, t < block_size →
              xb !! t = (if bool_decide ([116; 114; 97; 105; 110]%N =
                                         [116; 114; 97; 105; 110]%N)
                         then ToyScript.data else [5; 6]) !! (i + t) ∧
              yb !! t = (if bool_decide ([116; 114; 97; 105; 110]%N =
                                         [116; 114; 97; 105; 110]%N)
                         then ToyScript.data else [5; 6]) !! (i + t + 1)) ∧
      (∀ t, t + 1 < block_size → yb !! t = xb !! (t + 1)).
Proof.
  apply (get_batch_windows ToyScript.data [5; 6] [116; 114; 97; 105; 110]%N 0).
  - apply ToyScript_randint_in_range.
  - rewrite bool_decide_eq_true_2 by done.
    unfold ToyScript.data, block_size. rewrite length_seq. lia.
Defined.

(** ** The caches in a run of [generate] *)

Section generation_caches.
Context {R : Type} `{Scalar R} {G : Type} `{Sampler G R}.
Implicit Types (M : NanoGPTLanguageModel.t R) (idx : list nat) (g : G).

(** [generate] returns the sequence and the generator of the state its
    loop ends in. *)
Lemma generate_loop_of_steps M (n : nat) curr_idx idx cache g :
  NanoGPTLanguageModel.generate_loop M n curr_idx idx cache g =
  (st <- generate_steps M n curr_idx idx cache g ;; Ok (st.1.1.2, st.2)).
Proof.
  revert curr_idx idx cache g. induction n as [|n IH]; intros curr_idx idx cache g; [done|].
  cbn [NanoGPTLanguageModel.generate_loop generate_steps].
  destruct (NanoGPTLanguageModel.forward M curr_idx None true (Some cache))
    as [[logits loss|logits loss cache']|e]; cbn [bind]; [done| |done].
  destruct (last logits) as [row|]; cbn [bind]; [|done].
  destruct (multinomial g (softmax row)) as [idx_next g1]. apply IH.
Qed.

(** A run of [n + j] iterations passes through the state after [n]. *)
Lemma generate_steps_add M (n j : nat) curr_idx idx cache g :
  generate_steps M (n + j) curr_idx idx cache g =
  (st <- generate_steps M n curr_idx idx cache g ;;
   generate_steps M j st.1.1.1 st.1.1.2 st.1.2 st.2).
Proof.
  revert curr_idx idx cache g. induction n as [|n IH]; intros curr_idx idx cache g; [done|].
  cbn [Nat.add generate_steps].
  destruct (NanoGPTLanguageModel.forward M curr_idx None true (Some cache))
    as [[logits loss|logits loss cache']|e]; cbn [bind]; [done| |done].
  destruct (last logits) as [row|]; cbn [bind]; [|done].
  destruct (multinomial g (softmax row)) as [idx_next g1]. apply IH.
Qed.

Lemma generate_passes_through M idx (max_new_tokens n : nat) g r :
  NanoGPTLanguageModel.generate M idx max_new_tokens g = Ok r → n ≤ max_new_tokens →
  ∃ st, generate_steps M n idx idx (replicate n_layer None) g = Ok st.
Proof.
  unfold NanoGPTLanguageModel.generate. intros Hgen Hn.
  rewrite generate_loop_of_steps in Hgen.
  replace max_new_tokens with (n + (max_new_tokens - n)) in Hgen by lia.
  rewrite generate_steps_add in Hgen.
  destruct (generate_steps M n idx idx (replicate n_layer None) g) as [st|]; [eauto|done].
Qed.

Lemma slice_last_all (n : nat) (k : list (list (list R))) :
  Forall (fun kh => length kh ≤ n) k → slice_last n k = k.
Proof.
  intros Hk. unfold slice_last. rewrite <- (map_id k) at 2. apply map_ext_in.
  intros kh Hkh. rewrite Forall_forall in Hk.
  replace (length kh - n) with 0; [done|].
  apply list_elem_of_In, Hk in Hkh. lia.
Qed.

Lemma heads_lengths (m : MultiHeadAttention.t R) (f : list R → list R)
    (x : list (list R)) :
  Forall (fun kh => length kh = length x) (MultiHeadAttention.heads m f x) ∧
  dim_time (MultiHeadAttention.heads m f x) ≤ length x.
Proof.
  rewrite heads_eq. split.
  - apply Forall_forall. intros kh Hkh. apply list_elem_of_fmap in Hkh as (j & -> & _).
    by rewrite length_map.
  - unfold dim_time. destruct (MultiHeadAttention.num_heads m); cbn; [lia|].
    by rewrite length_map.
Qed.

Lemma cache_state_within M (L n : nat) caches :
  cache_state M L caches → L ≤ n →
  Forall (cache_within n) caches ∧
  Forall (fun c => ∀ k v, c = Some (k, v) → slice_last n k = k ∧ slice_last n v = v)
         caches.
Proof.
  intros (ins & -> & _ & Hins) HL. unfold kv_caches.
  assert (∀ c, c ∈ zip_with (fun b x => Some (block_kv b x))
                     (NanoGPTLanguageModel.blocks M) ins →
               ∃ b x, c = Some (block_kv b x) ∧ length x = L) as Hc.
  { intros c Hc. apply elem_of_lookup_zip_with in Hc as (i & b & x & -> & _ & Hx).
    exists b, x. split; [done|]. rewrite Forall_forall in Hins.
    apply Hins. by eapply list_elem_of_lookup_2. }
  split; apply Forall_forall; intros c Hin; destruct (Hc c Hin) as (b & x & -> & Hx).
  - unfold block_kv, mha_kv. cbn.
    destruct (heads_lengths (Block.sa_heads b)
                (MultiHeadAttention.key (Block.sa_heads b)) (map (Block.ln1 b) x))
      as [Hk Hdk].
    destruct (heads_lengths (Block.sa_heads b)
                (MultiHeadAttention.value (Block.sa_heads b)) (map (Block.ln1 b) x))
      as [Hv Hdv].
    rewrite length_map in *.
    split_and!; [lia|lia| |]; (eapply Forall_impl; [done|]); cbn; intros; lia.
  - intros k v [= <- <-].
    destruct (heads_lengths (Block.sa_heads b)
                (MultiHeadAttention.key (Block.sa_heads b)) (map (Block.ln1 b) x))
      as [Hk _].
    destruct (heads_lengths (Block.sa_heads b)
                (MultiHeadAttention.value (Block.sa_heads b)) (map (Block.ln1 b) x))
      as [Hv _].
    rewrite length_map in *.
    split; apply slice_last_all; (eapply Forall_impl; [done|]); cbn; intros; lia.
Qed.

(** The invariant of the loop: the caches are the empty ones it starts
    with, or hold the same number [L ≤ block_size] of positions in every
    block, and then a single token is fed. *)
Lemma generate_steps_invariant M (n : nat) curr_idx idx cache g curr_idx' idx' cache' g' :
  constructed M →
  cache = replicate n_layer None ∨
    (∃ tok L, curr_idx = [tok] ∧ L ≤ block_size ∧ cache_state M L cache) →
  generate_steps M n curr_idx idx cache g = Ok (curr_idx', idx', cache', g') →
  cache' = replicate n_layer None ∨ (∃ L, L ≤ block_size ∧ cache_state M L cache').
Proof.
  intros HM. revert curr_idx idx cache g.
  induction n as [|n IH]; intros curr_idx idx cache g Hinv.
  { cbn. intros [= <- <- <- <-]. destruct Hinv as [?|(tok & L & _ & ? & ?)]; eauto. }
  cbn [generate_steps].
  destruct (NanoGPTLanguageModel.forward M curr_idx None true (Some cache))
    as [out|e] eqn:Hf; cbn [bind]; [|done].
  pose proof (forward_Ok_in_vocab _ _ _ _ _ _ Hf) as Hv.
  assert (∃ logits loss cache1 L1,
            out = NanoGPTLanguageModel.Out3 logits loss cache1 ∧
            L1 ≤ block_size ∧ cache_state M L1 cache1)
    as (logits & loss & cache1 & L1 & -> & HL1 & Hc1).
  { destruct Hinv as [->|(tok & L & -> & HL & Hc)].
    - destruct (decide (length curr_idx ≤ block_size)) as [Hl|Hl].
      + destruct (forward_prompt_shape M curr_idx) as (hs & caches & Hf' & _ & Hc);
          [done..|]. rewrite Hf' in Hf. injection Hf as <-. eauto 10.
      + by rewrite forward_prompt_overflow in Hf by (done || lia).
    - destruct (decide (L < block_size)) as [Hl|Hl].
      + destruct (forward_step_shape M L tok cache) as (h & caches & Hf' & Hc');
          [done..|]. rewrite Hf' in Hf. injection Hf as <-.
        exists [NanoGPTLanguageModel.lm_head M h], None, caches, (S L).
        split; [done|]. split; [lia|done].
      + by rewrite (forward_step_overflow M L tok cache) in Hf by (done || lia). }
  destruct (last logits) as [row|]; cbn [bind]; [|done].
  destruct (multinomial g (softmax row)) as [idx_next g1].
  apply IH. right. eauto.
Qed.

End generation_caches.


(** ** Evaluation mode and training mode *)

Section eval_mode.
Context {R : Type} `{Scalar R} {G : Type} `{Sampler G R} `{Bernoulli G}.
Implicit Types (M : NanoGPTLanguageModel.t R) (idx : list nat) (g : G).

(** In evaluation mode the functions with a mode are the functions
    without: dropout is the identity and the generator is left alone. *)
Lemma mha_forward_eval (m : MultiHeadAttention.t R) (x : list (list R))
    (use_cache : bool) (kvcache : option (MultiHeadAttention.kv R)) g :
  WithMode.MultiHeadAttention_forward false m x use_cache kvcache g =
  (r <- MultiHeadAttention.forward m x use_cache kvcache ;; Ok (r.1, r.2, g)).
Proof.
  unfold WithMode.MultiHeadAttention_forward, MultiHeadAttention.forward.
  destruct (MultiHeadAttention.extend _ _ _ _) as [[k v] kvcache'].
  destruct (masked_fill3 _ _ _ _); cbn; done.
Qed.

Lemma block_forward_eval (b : Block.t R) (x : list (list R)) (use_cache : bool)
    (kvcache : option (MultiHeadAttention.kv R)) g :
  WithMode.Block_forward false b x use_cache kvcache g =
  (r <- Block.forward b x use_cache kvcache ;; Ok (r.1, r.2, g)).
Proof.
  unfold WithMode.Block_forward, Block.forward. rewrite mha_forward_eval.
  destruct (MultiHeadAttention.forward _ _ _ _) as [[a c]|]; cbn; done.
Qed.

Lemma run_blocks_eval (zipped : list (Block.t R * option (MultiHeadAttention.kv R)))
    (x : list (list R)) (use_cache : bool)
    (acc : list (option (MultiHeadAttention.kv R))) g :
  WithMode.run_blocks false zipped x use_cache acc g =
  (r <- NanoGPTLanguageModel.run_blocks zipped x use_cache acc ;; Ok (r.1, r.2, g)).
Proof.
  revert x acc. induction zipped as [|[b c] zipped IH]; intros x acc; [done|].
  cbn [WithMode.run_blocks NanoGPTLanguageModel.run_blocks].
  rewrite block_forward_eval.
  destruct (Block.forward b x use_cache c) as [[y c']|]; cbn; [|done]. apply IH.
Qed.

Lemma forward_eval M idx (targets : option (list nat)) (use_cache : bool)
    (blocks_kvcache : option (list (option (MultiHeadAttention.kv R)))) g :
  WithMode.forward false M idx targets use_cache blocks_kvcache g =
  (out <- NanoGPTLanguageModel.forward M idx targets use_cache blocks_kvcache ;;
   Ok (out, g)).
Proof.
  unfold WithMode.forward, NanoGPTLanguageModel.forward.
  destruct (Embedding_forward IndexError_token _ _); cbn [bind]; [|done].
  destruct (Embedding_forward IndexError_position _ _); cbn [bind]; [|done].
  destruct blocks_kvcache as [caches|]; cbn [bind]; [|done].
  rewrite run_blocks_eval.
  destruct (NanoGPTLanguageModel.run_blocks _ _ _ _) as [[y cs]|]; cbn [bind fst snd];
    [|done].
  destruct targets as [targets|]; cbn [bind].
  - case_bool_decide; cbn [bind]; [|done].
    destruct (cross_entropy _ _); cbn [bind]; [|done]. by destruct use_cache.
  - by destruct use_cache.
Qed.

Lemma generate_loop_eval M (n : nat) curr_idx idx cache g :
  WithMode.generate_loop false M n curr_idx idx cache g =
  NanoGPTLanguageModel.generate_loop M n curr_idx idx cache g.
Proof.
  revert curr_idx idx cache g. induction n as [|n IH]; intros curr_idx idx cache g; [done|].
  cbn [WithMode.generate_loop NanoGPTLanguageModel.generate_loop].
  rewrite forward_eval.
  destruct (NanoGPTLanguageModel.forward M curr_idx None true (Some cache))
    as [[logits loss|logits loss cache']|e]; cbn [bind fst snd]; [done| |done].
  destruct (last logits) as [row|]; cbn [bind]; [|done].
  destruct (multinomial g (softmax row)) as [idx_next g1]. apply IH.
Qed.

Lemma generate_full_loop_eval M (n : nat) idx g :
  WithMode.generate_full_loop false M n idx g =
  NanoGPTLanguageModel.generate_full_loop M n idx g.
Proof.
  revert idx g. induction n as [|n IH]; intros idx g; [done|].
  cbn [WithMode.generate_full_loop NanoGPTLanguageModel.generate_full_loop].
  rewrite forward_eval.
  destruct (NanoGPTLanguageModel.forward M idx None false _)
    as [out|e]; cbn [bind fst snd]; [|done].
  destruct (last _) as [row|]; cbn [bind]; [|done].
  destruct (multinomial g (softmax row)) as [idx_next g1]. apply IH.
Qed.
End eval_mode.

Section eval_mode_cache.
Context {R : Type} `{ScalarLaws R} {G : Type} `{Sampler G R} `{Bernoulli G}.

End eval_mode_cache.

#[local] Existing Instance ToyTrain.counter_noise.



(** The logits differ as well, whatever the sampler: after a first pass
    over the prompt in training mode, the cached step on the next token
    and the full pass over both tokens, started with the same generator
    state, give different logits at the last position, because the noise
    of dropout falls on tensors of different sizes. *)
Lemma forward_training_logits_differ :
  (o1 <- WithMode.forward true ToyTrain.model_open [0]
           None true (Some (replicate n_layer None)) 0 ;;
   match o1.1 with
   | NanoGPTLanguageModel.Out3 _ _ caches =>
       a <- WithMode.forward true ToyTrain.model_open [3]
              None true (Some caches) o1.2 ;;
       b <- WithMode.forward true ToyTrain.model_open [0; 3]
              None false (Some (replicate n_layer None)) o1.2 ;;
       Ok (last (output_logits a.1), last (output_logits b.1))
   | NanoGPTLanguageModel.Out2 _ _ => Raise ValueError_unpack
   end) =
  Ok (Some [24; 24; 24; 24; 0; 24; 24]%Z, Some [24; 24; 24; 0; 24; 24; 24]%Z).
Proof. by vm_compute. Qed.
